(** * Pareto-front approximation and cache of SBArchOpt

    A shallow embedding of [sb_arch_opt/pareto_front.py]
    ([CachedParetoFrontMixin]): the cache key and path, the choice between
    exhaustive evaluation and repeated NSGA2 runs, the merge of the runs'
    fronts, the de-duplication and the crowding-distance reduction, and the
    pickle cache on disk.

    Objective values are compared with [<], [>] and [==] only; they are
    modelled as exact integers (any finite set of finite floats embeds in
    [Z] after scaling, and the crowding distance is invariant under positive
    scaling).  A front, a 2-D array, is the list of its rows. *)

From Stdlib Require Import ZArith QArith List Bool Lia Permutation Sorted Ascii String.
From stdpp Require Import base gmap strings.
Import ListNotations.

#[local] Open Scope Z_scope.

(** ** Objective rows and Pareto dominance *)

Definition row := list Z.
Definition front := list row.

(** [pymoo.util.dominator]: [a] dominates [b] when it is smaller somewhere and
    larger nowhere ([any(a < b) and not any(a > b)], epsilon 0). *)
Definition any_lt (a b : row) : bool :=
  List.existsb (fun p => fst p <? snd p) (List.combine a b).

Definition dominates (a b : row) : bool :=
  any_lt a b && negb (any_lt b a).

(** Row [f] has a dominator among the rows of [F]. *)
Definition is_dominated (F : front) (f : row) : bool :=
  List.existsb (fun g => dominates g f) F.

(** [pf[idx, :]]: the rows at the given indices, in that order.  The indices
    used below come from a non-dominated sort or an argsort of the same array
    and are in range. *)
Definition take_rows (pf : front) (idx : list nat) : front :=
  List.map (fun i => List.nth i pf []) idx.

(** [NonDominatedSorting().do(F, only_non_dominated_front=True)]: the indices
    of the rows no other row dominates, ascending.  The arrays it is given
    here, an evaluated population and fronts returned by runs, have rows. *)
Definition non_dominated_indices (F : front) : list nat :=
  List.filter (fun i => negb (is_dominated F (List.nth i F [])))
              (List.seq 0 (List.length F)).

(** [F[NonDominatedSorting().do(F, only_non_dominated_front=True), :]] *)
Definition non_dominated_front (F : front) : front :=
  take_rows F (non_dominated_indices F).

(** No row of [F] is dominated by a row of [F]. *)
Definition mutually_non_dominated (F : front) : Prop :=
  forall f g, In f F -> In g F -> dominates g f = false.

(** All rows have [n_obj] columns. *)
Definition is_matrix (n_obj : nat) (F : front) : Prop :=
  Forall (fun f => List.length f = n_obj) F.

(** ** [np.unique(pf, axis=0)]: rows sorted lexicographically, duplicates dropped *)

Fixpoint row_compare (a b : row) : comparison :=
  match a, b with
  | [], [] => Eq
  | [], _ :: _ => Lt
  | _ :: _, [] => Gt
  | x :: a', y :: b' =>
      match x ?= y with
      | Eq => row_compare a' b'
      | c => c
      end
  end.

Definition row_lt (a b : row) : Prop := row_compare a b = Lt.

Fixpoint insert_row (f : row) (pf : front) : front :=
  match pf with
  | [] => [f]
  | g :: pf' =>
      match row_compare f g with
      | Lt => f :: pf
      | Eq => pf
      | Gt => g :: insert_row f pf'
      end
  end.

Definition np_unique (pf : front) : front :=
  List.fold_right insert_row [] pf.

(** ** Crowding distances and [np.argsort] *)

(** A crowding distance: a finite value or [+inf] (pymoo replaces NaN by 0). *)
Inductive score : Type :=
  | Finite (q : Q)
  | Infinite.

Definition score_leb (s t : score) : bool :=
  match s, t with
  | _, Infinite => true
  | Infinite, Finite _ => false
  | Finite p, Finite q => Qle_bool p q
  end.

Definition score_ltb (s t : score) : bool := negb (score_leb t s).

Fixpoint insert_index (key : nat -> score) (i : nat) (l : list nat) : list nat :=
  match l with
  | [] => [i]
  | j :: l' =>
      if score_leb (key i) (key j) then i :: l else j :: insert_index key i l'
  end.

(** [np.argsort(v)] for the vector [v] of length [n] given by [key]: the
    indices [0..n-1] in ascending order of their value, ties in index order.
    (The default sort of numpy is not stable and may order the indices of
    equal values otherwise; the properties proved of [argsort] are those of
    any ascending order of the indices.) *)
Definition argsort (n : nat) (key : nat -> score) : list nat :=
  List.fold_right (insert_index key) [] (List.seq 0 n).

(** ** The size reduction (lines 95-100) *)

Section Reduction.

(** [calc_crowding_distance] of pymoo, one distance per row:
    [crowding pf i] is entry [i] of [calc_crowding_distance(pf)]. *)
Variable crowding : front -> nat -> score.

(** [np.argsort(calc_crowding_distance(pf))] *)
Definition crowding_order (pf : front) : list nat :=
  argsort (List.length pf) (crowding pf).

(** One pass of the loop body:
    [pf = pf[np.argsort(calc_crowding_distance(pf))[1:], :]]. *)
Definition reduce_step (pf : front) : front :=
  take_rows pf (List.tl (crowding_order pf)).

(** [for _ in range(k): ...], keeping the array before each pass. *)
Fixpoint reduce_loop (k : nat) (pf : front) : list front * front :=
  match k with
  | O => ([], pf)
  | S k' =>
      let '(seen, out) := reduce_loop k' (reduce_step pf) in
      (pf :: seen, out)
  end.

(** Lines 96-100: the passes made (the array each one started from) and the
    array left.  [n_pts_keep] is a Python int or [None]. *)
Definition reduce_front (pf : front) (n_pts_keep : option Z)
  : list front * front :=
  match n_pts_keep with
  | None => ([], pf)
  | Some k =>
      if Z.of_nat (List.length pf) >? k
      then reduce_loop (Z.to_nat (Z.of_nat (List.length pf) - k)) pf
      else ([], pf)
  end.

(** Lines 95-100. *)
Definition finalize_front (pf : front) (n_pts_keep : option Z) : front :=
  snd (reduce_front (np_unique pf) n_pts_keep).

End Reduction.

(** ** A model of pymoo's [calc_crowding_distance]

    Used for the concrete examples below; the theorems about the reduction
    hold for any crowding function.  It follows pymoo 0.6 on an array without
    duplicate rows (line 95 removes them): per objective the rows are sorted
    (stable), each row gets the distance to its predecessor plus the distance
    to its successor divided by the objective's range ([+inf] at both ends, 0
    when the range is 0), and the distances are averaged over the objectives.
    Arrays of at most two rows get [+inf] everywhere.  (Versions of pymoo
    that store 1e14 in place of [+inf] give the same order.) *)

Definition score_add (s t : score) : score :=
  match s, t with
  | Finite p, Finite q => Finite (p + q)
  | _, _ => Infinite
  end.

Definition score_scale (s : score) (d : Q) : score :=
  match s with
  | Finite p => Finite (p / d)
  | Infinite => Infinite
  end.

Fixpoint insert_index_Z (key : nat -> Z) (i : nat) (l : list nat) : list nat :=
  match l with
  | [] => [i]
  | j :: l' => if key i <=? key j then i :: l else j :: insert_index_Z key i l'
  end.

(** [np.argsort(col, kind='mergesort')] *)
Definition argsort_Z (col : list Z) : list nat :=
  List.fold_right (insert_index_Z (fun i => List.nth i col 0)) []
                  (List.seq 0 (List.length col)).

Fixpoint position_of (i : nat) (l : list nat) : nat :=
  match l with
  | [] => O
  | j :: l' => if Nat.eqb i j then O else S (position_of i l')
  end.

(** The share of one objective in the distance of each row. *)
Definition column_distances (col : list Z) : list score :=
  let I := argsort_Z col in
  let sorted := List.map (fun i => List.nth i col 0) I in
  let n := List.length col in
  let norm := List.last sorted 0 - List.hd 0 sorted in
  List.map
    (fun i =>
       let r := position_of i I in
       if norm =? 0 then Finite 0
       else if Nat.eqb r 0 || Nat.eqb r (n - 1) then Infinite
       else
         let here := List.nth r sorted 0 in
         let to_last := here - List.nth (r - 1) sorted 0 in
         let to_next := List.nth (r + 1) sorted 0 - here in
         Finite (inject_Z to_last / inject_Z norm
                 + inject_Z to_next / inject_Z norm)%Q)
    (List.seq 0 n).

Definition calc_crowding_distance (F : front) : list score :=
  let n_points := List.length F in
  let n_obj := List.length (List.hd [] F) in
  if (n_points <=? 2)%nat then List.repeat Infinite n_points
  else
    let per_objective :=
      List.map (fun j => column_distances (List.map (fun f => List.nth j f 0) F))
               (List.seq 0 n_obj) in
    List.map
      (fun i =>
         score_scale
           (List.fold_left score_add
              (List.map (fun col => List.nth i col Infinite) per_objective)
              (Finite 0))
           (inject_Z (Z.of_nat n_obj)))
      (List.seq 0 n_points).

Definition pymoo_crowding (F : front) (i : nat) : score :=
  List.nth i (calc_crowding_distance F) Infinite.

Definition score_eqb (s t : score) : bool := score_leb s t && score_leb t s.

(** ** [hashlib.md5] (RFC 1321) on bytes, words as [Z] modulo 2^32 *)

Module MD5.

Definition add32 (a b : Z) : Z := (a + b) mod 2 ^ 32.

Definition rotl32 (x c : Z) : Z :=
  Z.lor (Z.shiftl x c mod 2 ^ 32) (Z.shiftr x (32 - c)).

Definition not32 (x : Z) : Z := Z.lxor x 4294967295.

Definition shifts : list Z :=
  [7; 12; 17; 22; 7; 12; 17; 22; 7; 12; 17; 22; 7; 12; 17; 22;
   5; 9; 14; 20; 5; 9; 14; 20; 5; 9; 14; 20; 5; 9; 14; 20;
   4; 11; 16; 23; 4; 11; 16; 23; 4; 11; 16; 23; 4; 11; 16; 23;
   6; 10; 15; 21; 6; 10; 15; 21; 6; 10; 15; 21; 6; 10; 15; 21].

Definition sines : list Z :=
  [0xd76aa478; 0xe8c7b756; 0x242070db; 0xc1bdceee;
   0xf57c0faf; 0x4787c62a; 0xa8304613; 0xfd469501;
   0x698098d8; 0x8b44f7af; 0xffff5bb1; 0x895cd7be;
   0x6b901122; 0xfd987193; 0xa679438e; 0x49b40821;
   0xf61e2562; 0xc040b340; 0x265e5a51; 0xe9b6c7aa;
   0xd62f105d; 0x02441453; 0xd8a1e681; 0xe7d3fbc8;
   0x21e1cde6; 0xc33707d6; 0xf4d50d87; 0x455a14ed;
   0xa9e3e905; 0xfcefa3f8; 0x676f02d9; 0x8d2a4c8a;
   0xfffa3942; 0x8771f681; 0x6d9d6122; 0xfde5380c;
   0xa4beea44; 0x4bdecfa9; 0xf6bb4b60; 0xbebfbc70;
   0x289b7ec6; 0xeaa127fa; 0xd4ef3085; 0x04881d05;
   0xd9d4d039; 0xe6db99e5; 0x1fa27cf8; 0xc4ac5665;
   0xf4292244; 0x432aff97; 0xab9423a7; 0xfc93a039;
   0x655b59c3; 0x8f0ccc92; 0xffeff47d; 0x85845dd1;
   0x6fa87e4f; 0xfe2ce6e0; 0xa3014314; 0x4e0811a1;
   0xf7537e82; 0xbd3af235; 0x2ad7d2bb; 0xeb86d391].

(** Little-endian bytes of a word, and back. *)
Definition word_bytes (n : nat) (w : Z) : list Z :=
  List.map (fun k => Z.shiftr w (8 * Z.of_nat k) mod 256) (List.seq 0 n).

Definition bytes_word (bs : list Z) : Z :=
  List.fold_right (fun b acc => b + 256 * acc) 0 bs.

(** The message, 0x80, zeros up to 56 modulo 64, and the bit length. *)
Definition pad (msg : list Z) : list Z :=
  let len := Z.of_nat (List.length msg) in
  let zeros := Z.to_nat ((55 - len) mod 64) in
  msg ++ [128] ++ List.repeat 0 zeros ++ word_bytes 8 ((8 * len) mod 2 ^ 64).

Fixpoint chunks (fuel : nat) (bs : list Z) : list (list Z) :=
  match fuel, bs with
  | S fuel', _ :: _ => List.firstn 64 bs :: chunks fuel' (List.skipn 64 bs)
  | _, _ => []
  end.

Definition words (chunk : list Z) : list Z :=
  List.map (fun k => bytes_word (List.firstn 4 (List.skipn (4 * k) chunk)))
           (List.seq 0 16).

Definition state : Type := Z * Z * Z * Z.

Definition round (M : list Z) (st : state) (i : nat) : state :=
  let '(A, B, C, D) := st in
  let iz := Z.of_nat i in
  let '(F, g) :=
    if iz <? 16 then (Z.lor (Z.land B C) (Z.land (not32 B) D), iz)
    else if iz <? 32 then
      (Z.lor (Z.land D B) (Z.land (not32 D) C), (5 * iz + 1) mod 16)
    else if iz <? 48 then (Z.lxor B (Z.lxor C D), (3 * iz + 5) mod 16)
    else (Z.lxor C (Z.lor B (not32 D)), (7 * iz) mod 16) in
  let F' := add32 (add32 (add32 F A) (List.nth i sines 0))
                  (List.nth (Z.to_nat g) M 0) in
  (D, add32 B (rotl32 F' (List.nth i shifts 0)), B, C).

Definition compress (st : state) (chunk : list Z) : state :=
  let '(a0, b0, c0, d0) := st in
  let '(A, B, C, D) :=
    List.fold_left (round (words chunk)) (List.seq 0 64) st in
  (add32 a0 A, add32 b0 B, add32 c0 C, add32 d0 D).

Definition digest (msg : list Z) : list Z :=
  let padded := pad msg in
  let '(a, b, c, d) :=
    List.fold_left compress (chunks (List.length padded) padded)
      (0x67452301, 0xefcdab89, 0x98badcfe, 0x10325476) in
  word_bytes 4 a ++ word_bytes 4 b ++ word_bytes 4 c ++ word_bytes 4 d.

Definition hex_digit (n : Z) : ascii :=
  ascii_of_nat (Z.to_nat (if n <? 10 then 48 + n else 87 + n)).

Definition hex_of_byte (b : Z) : list ascii :=
  [hex_digit (b / 16 mod 16); hex_digit (b mod 16)].

(** [hashlib.md5(data).hexdigest()] *)
Definition hexdigest (msg : list Z) : string :=
  string_of_list_ascii (List.flat_map hex_of_byte (digest msg)).

End MD5.

Definition bytes_of_ascii_text (s : string) : list Z :=
  List.map (fun c => Z.of_nat (nat_of_ascii c)) (list_ascii_of_string s).

(** ** Python strings

    A [str] is modelled as a [string] of code points below 256. *)

Definition code (c : ascii) : nat := nat_of_ascii c.

(** [str.lower] on one character. *)
Definition lower_char (c : ascii) : ascii :=
  let n := code c in
  if ((65 <=? n) && (n <=? 90)
      || (192 <=? n) && (n <=? 222) && negb (n =? 215))%nat
  then ascii_of_nat (n + 32) else c.

(** [str.isspace] on one character. *)
Definition is_space (c : ascii) : bool :=
  let n := code c in
  ((9 <=? n) && (n <=? 13) || (28 <=? n) && (n <=? 32)
   || (n =? 133) || (n =? 160))%nat.

Fixpoint lstrip (p : ascii -> bool) (s : list ascii) : list ascii :=
  match s with
  | c :: s' => if p c then lstrip p s' else s
  | [] => []
  end.

Definition rstrip (p : ascii -> bool) (s : list ascii) : list ascii :=
  List.rev (lstrip p (List.rev s)).

(** [s.lower().strip()] *)
Definition lower_strip (s : list ascii) : list ascii :=
  rstrip is_space (lstrip is_space (List.map lower_char s)).

(** The character class [[0-9a-z]]. *)
Definition is_key_char (c : ascii) : bool :=
  let n := code c in
  ((48 <=? n) && (n <=? 57) || (97 <=? n) && (n <=? 122))%nat.

(** [re.sub('[^0-9a-z]', '_', s)] *)
Definition re_sub_underscore (s : list ascii) : list ascii :=
  List.map (fun c => if is_key_char c then c else "_"%char) s.

(** [s.encode('utf-8')] for code points below 256. *)
Definition encode_utf8 (s : list ascii) : list Z :=
  List.flat_map
    (fun c =>
       let n := Z.of_nat (code c) in
       if n <? 128 then [n] else [192 + n / 64; 128 + n mod 64])
    s.

(** [s.startswith('<')] *)
Definition startswith_lt (s : string) : bool :=
  match s with
  | String c _ => Ascii.eqb c "<"%char
  | EmptyString => false
  end.

(** ** Exceptions, the file system and the effect log *)

Inductive exn : Type :=
  | ReprRaised          (* [repr(self)] raised *)
  | RunRaised (i : nat) (* worker run [i] raised; [futures[i].result()] re-raises *)
  | AxisError.          (* [np.unique(None, axis=0)] *)

Inductive result (A : Type) : Type :=
  | Ok (a : A)
  | Raise (e : exn).

Arguments Ok {A} a.
Arguments Raise {A} e.

(** What a call does besides reading and writing the cache file. *)
Inductive event : Type :=
  | Load (path : string)      (* [pickle.load] *)
  | Sample (n : Z)            (* [RepairedExhaustiveSampling().do(self, n)] *)
  | Evaluate (n_points : nat) (* [Evaluator().eval(self, pop)] *)
  | Submit (i : nat)          (* [executor.submit(self._run_minimize, .., i, ..)] *)
  | WaitAll                   (* [concurrent.futures.wait(futures)] *)
  | Dump (path : string)      (* [os.makedirs] and [pickle.dump] *)
  | Remove (path : string).   (* [os.remove] *)

(** The cache files (path to unpickled content) and the effects so far. *)
Record World : Type := {
  files : gmap string front;
  log : list event
}.

(** Computations that read and change the world and may raise; what was done
    before an exception stays done. *)
Definition M (A : Type) : Type := World -> result A * World.

Definition ret {A} (a : A) : M A := fun w => (Ok a, w).

Definition bind {A B} (m : M A) (k : A -> M B) : M B :=
  fun w =>
    match m w with
    | (Ok a, w') => k a w'
    | (Raise e, w') => (Raise e, w')
    end.

Notation "x <- m ;; k" := (bind m (fun x => k))
  (at level 100, m at next level, right associativity).
Notation "m ;;; k" := (bind m (fun _ => k))
  (at level 100, right associativity).

Definition lift {A} (r : result A) : M A := fun w => (r, w).

Definition emit (e : event) : M unit :=
  fun w => (Ok tt, {| files := files w; log := log w ++ [e] |}).

(** [os.path.exists(path)] *)
Definition os_path_exists (path : string) : M bool :=
  fun w => (Ok (bool_decide (is_Some (files w !! path))), w).

(** [pickle.load(open(path, 'rb'))] of an existing file. *)
Definition pickle_load (path : string) : M front :=
  fun w =>
    (Ok (match (files w !! path : option front) with
         | Some pf => pf
         | None => []
         end),
     {| files := files w; log := log w ++ [Load path] |}).

(** [os.makedirs(dirname, exist_ok=True)] and [pickle.dump(pf, open(path, 'wb'))] *)
Definition pickle_dump (path : string) (pf : front) : M unit :=
  fun w =>
    (Ok tt, {| files := <[path := pf]> (files w); log := log w ++ [Dump path] |}).

(** [os.remove(path)] *)
Definition os_remove (path : string) : M unit :=
  fun w =>
    (Ok tt, {| files := delete path (files w); log := log w ++ [Remove path] |}).

(** ** The problem *)

(** A design variable: continuous ([pymoo.core.variable.Real]) or discrete,
    with its entries of [xl] and [xu]; the bounds of a discrete variable are
    integers, so [int(xu[i]-xl[i]+1)] is [xu - xl + 1]. *)
Inductive Var : Type :=
  | Real (xl xu : Q)
  | Discrete (xl xu : Z).

Record Problem : Type := {
  (** [repr(self)] *)
  repr : result string;
  (** [self.__class__.__name__] *)
  class_name : string;
  (** [self.vars] with [self.bounds()] *)
  vars : list Var;
  (** the repair (imputation) of a discrete design vector *)
  correct_x : list Z -> list Z;
  (** the objective values of a discrete design vector *)
  evaluate : list Z -> row;
  (** [minimize(self, NSGA2(pop_size=pop_size), termination=('n_gen', n_gen)).F]
      in worker [i], an array, or the exception the worker raised *)
  minimize : Z -> Z -> nat -> result front
}.

(** ** The design-space size (lines 59-66) *)

(** The loop over [self.vars], started with [n]; [None] once a continuous
    variable is met. *)
Fixpoint design_space_size (vs : list Var) (n : Z) : option Z :=
  match vs with
  | [] => Some n
  | Real _ _ :: _ => None
  | Discrete xl xu :: vs' => design_space_size vs' (n * (xu - xl + 1))
  end.

Definition is_discrete (v : Var) : bool :=
  match v with
  | Real _ _ => false
  | Discrete _ _ => true
  end.

(** The product of [xu - xl + 1] over the discrete variables. *)
Definition combinatorial_size (vs : list Var) : Z :=
  List.fold_right
    (fun v acc =>
       match v with
       | Discrete xl xu => (xu - xl + 1) * acc
       | Real _ _ => acc
       end)
    1 vs.

(** ** Exhaustive sampling *)

(** The values [xl, xl+1, .., xu] of a discrete variable. *)
Definition values_of (v : Var) : list Z :=
  match v with
  | Discrete xl xu =>
      List.map (fun k => xl + Z.of_nat k) (List.seq 0 (Z.to_nat (xu - xl + 1)))
  | Real _ _ => []
  end.

(** Every combination of values, one per variable. *)
Definition design_grid (vs : list Var) : list (list Z) :=
  List.fold_right
    (fun v acc => List.flat_map (fun x => List.map (cons x) acc) (values_of v))
    [[]] vs.

(** Modelled from the spec: [RepairedExhaustiveSampling] of
    [sb_arch_opt/sampling.py], which is not among the sources.  The spec has it
    generate every valid point of the design space, respecting the repair and
    imputation rules of the problem: every grid point is repaired and each
    resulting design vector is listed once. *)
Definition RepairedExhaustiveSampling_do (self : Problem) (n : Z) : list (list Z) :=
  List.nodup (List.list_eq_dec Z.eq_dec) (List.map (correct_x self) (design_grid (vars self))).

(** A valid point of the design space: the repair of a grid point. *)
Definition valid_point (self : Problem) (x : list Z) : Prop :=
  exists g, In g (design_grid (vars self)) /\ x = correct_x self g.

(** ** Merging the runs (lines 84-92) *)

Fixpoint merge_runs (pf : option front) (futures : list (result front))
  : result (option front) :=
  match futures with
  | [] => Ok pf
  | Raise e :: _ => Raise e
  | Ok F :: rest =>
      merge_runs
        (Some (match pf with
               | None => F
               | Some pf0 => non_dominated_front (pf0 ++ F)
               end))
        rest
  end.

(** ** [CachedParetoFrontMixin] *)

Section CachedParetoFrontMixin.

(** The user's home directory, as [os.path.expanduser] finds it. *)
Variable home : string.

(** [calc_crowding_distance] of pymoo, entry by entry. *)
Variable crowding : front -> nat -> score.

(** Lines 140-142: the repr, or the class name when the repr starts with [<]. *)
Definition class_str_of (self : Problem) (r : string) : string :=
  if startswith_lt r then class_name self else r.

(** Lines 143-146: normalised, and hashed when longer than 20 characters. *)
Definition cache_key (class_str : string) : string :=
  let s := re_sub_underscore (lower_strip (list_ascii_of_string class_str)) in
  if (20 <? List.length s)%nat
  then string_of_list_ascii
         (List.firstn 20 (list_ascii_of_string (MD5.hexdigest (encode_utf8 s))))
  else string_of_list_ascii s.

(** The home directory as [os.path.expanduser] uses it: [userhome.rstrip('/')]. *)
Definition home_dir : string :=
  string_of_list_ascii (rstrip (Ascii.eqb "/"%char) (list_ascii_of_string home)).

(** [os.path.expanduser(os.path.join('~', '.arch_opt_pf_cache', name))] *)
Definition cache_file (name : string) : string :=
  (home_dir ++ "/.arch_opt_pf_cache/" ++ name)%string.

Definition _pf_cache_path (self : Problem) : result string :=
  match repr self with
  | Raise e => Raise e
  | Ok r => Ok (cache_file (cache_key (class_str_of self r) ++ ".pkl"))
  end.

Definition reset_pf_cache (self : Problem) : M unit :=
  cache_path <- lift (_pf_cache_path self) ;;
  cached <- os_path_exists cache_path ;;
  if cached then os_remove cache_path else ret tt.

Definition _run_minimize (self : Problem) (pop_size n_gen : Z) (i : nat) (n : Z)
  : result front :=
  minimize self pop_size n_gen i.

(** Lines 70-75. *)
Definition exhaustive_front (self : Problem) (n : Z) : M front :=
  emit (Sample n) ;;;
  let pop := RepairedExhaustiveSampling_do self n in
  emit (Evaluate (List.length pop)) ;;;
  ret (non_dominated_front (List.map (evaluate self) pop)).

(** Lines 80-81: one task per run; the future holds the run's outcome. *)
Fixpoint submit_all (self : Problem) (pop_size n_gen n_repeat : Z) (runs : list nat)
  : M (list (result front)) :=
  match runs with
  | [] => ret []
  | i :: runs' =>
      emit (Submit i) ;;;
      futures <- submit_all self pop_size n_gen n_repeat runs' ;;
      ret (_run_minimize self pop_size n_gen i n_repeat :: futures)
  end.

(** Lines 79-92. *)
Definition nsga2_front (self : Problem) (pop_size n_gen n_repeat : Z)
  : M (option front) :=
  futures <- submit_all self pop_size n_gen n_repeat
               (List.seq 0 (Z.to_nat n_repeat)) ;;
  emit WaitAll ;;;
  lift (merge_runs None futures).

(** Lines 59-92: the front before line 95, [None] when no run was made. *)
Definition approximate_front (self : Problem) (pop_size n_gen n_repeat : Z)
  : M (option front) :=
  match design_space_size (vars self) 1 with
  | Some n =>
      if n <? pop_size * n_gen * n_repeat
      then pf <- exhaustive_front self n ;; ret (Some pf)
      else nsga2_front self pop_size n_gen n_repeat
  | None => nsga2_front self pop_size n_gen n_repeat
  end.

(** Line 95 on the result of lines 59-92. *)
Definition unique_rows (pf : option front) : result front :=
  match pf with
  | None => Raise AxisError
  | Some pf => Ok (np_unique pf)
  end.

Definition _calc_pareto_front (self : Problem) (pop_size n_gen n_repeat : Z)
  (n_pts_keep : option Z) : M front :=
  cache_path <- lift (_pf_cache_path self) ;;
  cached <- os_path_exists cache_path ;;
  if cached then pickle_load cache_path
  else
    pf <- approximate_front self pop_size n_gen n_repeat ;;
    pf <- lift (unique_rows pf) ;;
    let pf := snd (reduce_front crowding pf n_pts_keep) in
    pickle_dump cache_path pf ;;;
    ret pf.

End CachedParetoFrontMixin.

(** The world before anything was cached. *)
Definition empty_world : World := {| files := ∅; log := [] |}.

(** ** Notions used in the statements *)

(** The indices are in ascending order of their scores. *)
Definition ascending (key : nat -> score) (l : list nat) : Prop :=
  StronglySorted (fun i j => score_leb (key i) (key j) = true) l.

(** [q] is [p] after a pass that took out one row, a row whose crowding
    distance is lowest in [p]; the other rows stay, in argsort order. *)
Definition drops_lowest (crowding : front -> nat -> score) (p q : front) : Prop :=
  exists i rest,
    crowding_order crowding p = i :: rest
    /\ (i < List.length p)%nat
    /\ (forall j, (j < List.length p)%nat ->
                  score_leb (crowding p i) (crowding p j) = true)
    /\ q = take_rows p rest
    /\ Permutation p (List.nth i p [] :: q).

(** The world after more events, the files untouched. *)
Definition add_events (w : World) (es : list event) : World :=
  {| files := files w; log := log w ++ es |}.

(** The outcomes of the [n_repeat] runs, in submission order. *)
Definition outcomes (self : Problem) (pop_size n_gen n_repeat : Z)
  : list (result front) :=
  List.map (fun i => minimize self pop_size n_gen i)
           (List.seq 0 (Z.to_nat n_repeat)).

(** What the stochastic path logs: every submission, then the wait. *)
Definition nsga2_events (n_repeat : Z) : list event :=
  List.map Submit (List.seq 0 (Z.to_nat n_repeat)) ++ [WaitAll].


(** The stochastic path is the one taken: a continuous variable, or a design
    space not smaller than the budget. *)
Definition stochastic_path (self : Problem) (pop_size n_gen n_repeat : Z) : Prop :=
  match design_space_size (vars self) 1 with
  | Some n => pop_size * n_gen * n_repeat <= n
  | None => True
  end.

(** The events a computation adds to the log. *)
Definition events_of {A} (m : M A) (w : World) : list event :=
  List.skipn (List.length (log w)) (log (snd (m w))).

(** A character of [[0-9a-z_]]. *)
Definition is_key_or_underscore (c : ascii) : bool :=
  is_key_char c || Ascii.eqb c "_"%char.

(** The normalised class string of lines 143: lowercased, stripped, every
    character outside [[0-9a-z]] replaced by an underscore. *)
Definition normalised (class_str : string) : list ascii :=
  re_sub_underscore (lower_strip (list_ascii_of_string class_str)).

(** ** Test problems *)

(** Two discrete variables with three values each; the class has a repr. *)
Definition grid_problem : Problem := {|
  repr := Ok "Grid()"%string;
  class_name := "Grid"%string;
  vars := [Discrete 0 2; Discrete 0 2];
  correct_x := fun x => x;
  evaluate := fun x => [List.nth 0 x 0; 2 - List.nth 0 x 0 + List.nth 1 x 0];
  minimize := fun _ _ _ => Ok [[0; 2]]
|}.


(** One continuous variable; the class has no repr of its own, so [repr] gives
    the default form.  Three runs find the rows below. *)
Definition curve_problem : Problem := {|
  repr := Ok "<demo.Curve object at 0x7f3a>"%string;
  class_name := "Curve"%string;
  vars := [Real 0 1];
  correct_x := fun x => x;
  evaluate := fun _ => [];
  minimize := fun _ _ i =>
    match i with
    | O => Ok [[10; 0]; [1; 8]]
    | S O => Ok [[5; 3]; [0; 10]; [2; 9]]
    | _ => Ok [[0; 10]; [10; 0]]
    end
|}.

(** As [curve_problem], but the second run raises. *)
Definition failing_problem : Problem := {|
  repr := Ok "Failing()"%string;
  class_name := "Failing"%string;
  vars := [Real 0 1];
  correct_x := fun x => x;
  evaluate := fun _ => [];
  minimize := fun _ _ i =>
    match i with
    | O => Ok [[10; 0]; [1; 8]]
    | S O => Raise (RunRaised 1)
    | _ => Ok [[0; 10]; [10; 0]]
    end
|}.

(** A problem whose [__repr__] raises. *)
Definition unprintable_problem : Problem := {|
  repr := Raise ReprRaised;
  class_name := "Broken"%string;
  vars := [Real 0 1];
  correct_x := fun x => x;
  evaluate := fun _ => [];
  minimize := fun _ _ _ => Ok [[0; 0]]
|}.

(** * Further code of the repository *)

(** ** [get_approx_f_range] (lines 131-137 of [pareto_front.py]) *)

(** Exceptions of the code below. *)
Inductive pyexn : Type :=
  | ValueError
  | RuntimeError
  | NotImplementedError
  | UnboundLocalError
  | AttributeError
  | IndexError
  | PopulationError  (* [Population.new] with inputs of different sizes *)
  | EgorError.       (* raised inside egobox *)

Inductive outcome (A : Type) : Type :=
  | Return (a : A)
  | Throw (e : pyexn).

Arguments Return {A} a.
Arguments Throw {A} e.

(** [op] applied entry by entry to two rows of one length. *)
Definition pointwise (op : Z -> Z -> Z) (a b : row) : row :=
  List.map (fun p => op (fst p) (snd p)) (List.combine a b).

(** [np.min(f, axis=0)] and [np.max(f, axis=0)]: a reduction over the rows,
    which numpy refuses on an array without rows. *)
Definition reduce_rows (op : Z -> Z -> Z) (f : front) : outcome row :=
  match f with
  | [] => Throw ValueError
  | f0 :: rest => Return (List.fold_left (pointwise op) rest f0)
  end.

(** Lines 134-137, on the objective values [f] of the evaluated sample. *)
Definition approx_f_range (f : front) : outcome front :=
  match reduce_rows Z.max f with
  | Throw e => Throw e
  | Return f_max =>
      match reduce_rows Z.min f with
      | Throw e => Throw e
      | Return f_min => Return [f_min; f_max]
      end
  end.

(** ** The EGOR interface ([algo/egor_interface/algo.py]) *)

(** A pymoo design variable: [Real] and [Integer] with their bounds, [Binary],
    [Choice] with its options, or any other [Variable]. *)
Inductive DesVar : Type :=
  | VReal (lb ub : Q)
  | VInteger (lb ub : Z)
  | VBinary
  | VChoice (options : list string)
  | VOther.

(** [egx.XSpec(xtype, xlimits)]. *)
Inductive XSpec : Type :=
  | XFloat (lb ub : Q)
  | XInt (lb ub : Z)
  | XEnum (n_options : nat).

(** Lines 249-271: the specification of one variable. *)
Definition xspec_of (v : DesVar) : outcome XSpec :=
  match v with
  | VReal lb ub => Return (XFloat lb ub)
  | VInteger lb ub => Return (XInt lb ub)
  | VBinary => Return (XInt 0 1)
  | VChoice options => Return (XEnum (List.length options))
  | VOther => Throw RuntimeError
  end.

(** The loop of lines 248-271 appending to [self._design_space]: the list so
    far, and the exception that stopped the loop if one did. *)
Fixpoint append_xspecs (vs : list DesVar) (acc : list XSpec)
  : option pyexn * list XSpec :=
  match vs with
  | [] => (None, acc)
  | v :: vs' =>
      match xspec_of v with
      | Return s => append_xspecs vs' (acc ++ [s])
      | Throw e => (Some e, acc)
      end
  end.

Section Egor.

(** The entries of design vectors and outputs: floats the interface moves
    around and never computes with. *)
Variable val : Type.

Definition matrix : Type := list (list val).

(** An individual of a pymoo [Population] with its [X], [F], [G] and [H]. *)
Record individual : Type := {
  ind_X : list val;
  ind_F : list val;
  ind_G : list val;
  ind_H : list val
}.

Definition population : Type := list individual.

(** What the interface uses of its problem.  Arrays are lists of rows; the
    rows of one array have one length, the number of columns the problem
    fixes for it ([n_var] for design vectors, [n_obj], [n_ieq_constr] and
    [n_eq_constr] for [F], [G] and [H]), so that [np.column_stack] and
    [np.row_stack] never raise. *)
Record EgorProblem : Type := {
  n_var : nat;
  n_obj : nat;
  n_ieq_constr : nat;
  n_eq_constr : nat;
  des_vars : list DesVar;
  (** [problem.evaluate(x, return_as_dictionary=True)] as a population *)
  problem_evaluate : matrix -> population;
  (** [problem.get_failed_points(population)]: a mask over the individuals *)
  get_failed_points : population -> list bool;
  (** [problem.load_previous_results(results_folder)] *)
  load_previous_results : string -> option population
}.

(** The arguments [egx.Egor] was built with. *)
Record EgorConfig : Type := {
  cfg_design_space : list XSpec;
  cfg_n_cstr : nat;
  cfg_seed : option Z;
  cfg_kpls_dim : option Z
}.

(** The egobox optimizer and the sampler, as the interface calls them. *)
Record EgorEngine (res : Type) : Type := {
  (** [HierarchicalSampling().do(problem, n).get("X")] *)
  sample_doe : Z -> matrix;
  (** [egor.suggest(x, y)], which may raise *)
  suggest : EgorConfig -> matrix -> matrix -> outcome matrix;
  (** [egor.get_result(x, y)], where [x] may be [None] *)
  get_result : EgorConfig -> option matrix -> matrix -> res
}.

Arguments sample_doe {res} _ _.
Arguments suggest {res} _ _ _ _.
Arguments get_result {res} _ _ _ _.

(** The attributes of an [EGORArchOptInterface] that change, and the number
    of [problem.store_results] calls made. *)
Record EgorState : Type := {
  (** [_x], [_x_failed] and [_y]: [None] together (after [__init__]) or set
      together (lines 151, 195 and 222-224) *)
  points : option (matrix * matrix * matrix);
  _design_space : option (list XSpec);
  _egor : option EgorConfig;
  stored : nat
}.

(** The state after [__init__]. *)
Definition egor_init : EgorState :=
  {| points := None; _design_space := None; _egor := None; stored := 0 |}.

Definition _x (st : EgorState) : option matrix :=
  match points st with None => None | Some (x, _, _) => Some x end.

Definition _x_failed (st : EgorState) : option matrix :=
  match points st with None => None | Some (_, x_failed, _) => Some x_failed end.

Definition _y (st : EgorState) : option matrix :=
  match points st with None => None | Some (_, _, y) => Some y end.

(** [x[mask, :]]: the rows where the mask is set. *)
Definition select_rows {A} (mask : list bool) (rows : list A) : list A :=
  List.map snd (List.filter fst (List.combine mask rows)).

(** Property [x], lines 79-83 ([np.zeros((0, n_var))] has no row). *)
Definition egor_x (st : EgorState) : matrix :=
  match _x st with None => [] | Some x => x end.

(** Property [n], lines 86-88. *)
Definition egor_n (st : EgorState) : nat :=
  match _x st with None => 0 | Some x => List.length x end.

(** Property [x_failed], lines 91-95. *)
Definition egor_x_failed (st : EgorState) : matrix :=
  match _x_failed st with None => [] | Some x => x end.

(** Property [n_failed], lines 98-100. *)
Definition egor_n_failed (st : EgorState) : nat :=
  match _x_failed st with None => 0 | Some x => List.length x end.

(** Property [n_tried], lines 103-105. *)
Definition egor_n_tried (st : EgorState) : nat := (egor_n st + egor_n_failed st)%nat.

(** Property [y], lines 108-113. *)
Definition egor_y (st : EgorState) : matrix :=
  match _y st with None => [] | Some y => y end.

Section WithProblem.

Variable problem : EgorProblem.

(** [np.split(y, [k], axis=1)] *)
Definition split_columns (k : nat) (y : matrix) : matrix * matrix :=
  (List.map (List.firstn k) y, List.map (List.skipn k) y).

(** [np.zeros((y.shape[0], 0))] *)
Definition no_columns (y : matrix) : matrix := List.map (fun _ => []) y.

(** [_split_y], lines 321-335. *)
Definition _split_y (y : matrix) : matrix * matrix * matrix :=
  let '(f, y) := split_columns (n_obj problem) y in
  let '(g, y) :=
    if (0 <? n_ieq_constr problem)%nat
    then split_columns (n_ieq_constr problem) y
    else (no_columns y, y) in
  let h :=
    if (0 <? n_eq_constr problem)%nat
    then List.map (List.firstn (n_eq_constr problem)) y
    else no_columns y in
  (f, g, h).

(** Properties [f], [g] and [h], lines 116-131. *)
Definition egor_f (st : EgorState) : matrix := fst (fst (_split_y (egor_y st))).
Definition egor_g (st : EgorState) : matrix := snd (fst (_split_y (egor_y st))).
Definition egor_h (st : EgorState) : matrix := snd (_split_y (egor_y st)).

(** [Population.new(X=x, F=f, G=g, H=h)]: one individual per row, refused
    when the arrays differ in their number of rows. *)
Fixpoint population_new (x f g h : matrix) : outcome population :=
  match x, f, g, h with
  | [], [], [], [] => Return []
  | xi :: x', fi :: f', gi :: g', hi :: h' =>
      match population_new x' f' g' h' with
      | Return pop =>
          Return ({| ind_X := xi; ind_F := fi; ind_G := gi; ind_H := hi |} :: pop)
      | Throw e => Throw e
      end
  | _, _, _, _ => Throw PopulationError
  end.

(** [get_population], lines 337-341. *)
Definition get_population (x y : matrix) : outcome population :=
  let '(f, g, h) := _split_y y in population_new x f g h.

(** Property [pop], lines 134-136. *)
Definition egor_pop (st : EgorState) : outcome population :=
  get_population (egor_x st) (egor_y st).

(** Lines 305-310: [np.column_stack] of [F], of [G] when there are inequality
    constraints and of [H] when there are equality constraints. *)
Definition outputs_of (i : individual) : list val :=
  ind_F i
  ++ (if (0 <? n_ieq_constr problem)%nat then ind_G i else [])
  ++ (if (0 <? n_eq_constr problem)%nat then ind_H i else []).

(** Lines 305-317 on a population with individuals and a mask of their
    number: [(x, x_failed, y)]. *)
Definition split_points (pop : population) : matrix * matrix * matrix :=
  let y := List.map outputs_of pop in
  let x := List.map ind_X pop in
  let is_failed := get_failed_points problem pop in
  let ok := List.map negb is_failed in
  (select_rows ok x, select_rows is_failed x, select_rows ok y).

(** [_get_xy], lines 298-319.  [Population.get] of a population without
    individuals gives arrays of one dimension, which [x[is_failed, :]] of line
    315 cannot index, and a boolean index has to have the length of the axis
    it indexes: in both cases numpy raises [IndexError]. *)
Definition _get_xy (pop : population) : outcome (matrix * matrix * matrix) :=
  match pop with
  | [] => Throw IndexError
  | _ :: _ =>
      if Nat.eqb (List.length (get_failed_points problem pop)) (List.length pop)
      then Return (split_points pop)
      else Throw IndexError
  end.

(** [_get_constraints_nb], lines 275-281. *)
Definition _get_constraints_nb : outcome nat :=
  if (0 <? n_eq_constr problem)%nat then Throw NotImplementedError
  else Return (n_ieq_constr problem).

(** The stateful part of the interface. *)

(** Computations on the state that may raise; what was done before an
    exception stays done. *)
Definition EM (A : Type) : Type := EgorState -> outcome A * EgorState.

Definition eret {A} (a : A) : EM A := fun st => (Return a, st).

Definition ethrow {A} (e : pyexn) : EM A := fun st => (Throw e, st).

Definition elift {A} (o : outcome A) : EM A := fun st => (o, st).

Definition ebind {A B} (m : EM A) (k : A -> EM B) : EM B :=
  fun st =>
    match m st with
    | (Return a, st') => k a st'
    | (Throw e, st') => (Throw e, st')
    end.

Notation "x <-- m ;; k" := (ebind m (fun x => k))
  (at level 100, m at next level, right associativity).
Notation "m ;;;; k" := (ebind m (fun _ => k))
  (at level 100, right associativity).

Definition set_points (p : matrix * matrix * matrix) : EM unit :=
  fun st =>
    (Return tt,
     {| points := Some p; _design_space := _design_space st;
        _egor := _egor st; stored := stored st |}).

(** [_save_results], lines 283-284. *)
Definition _save_results : EM unit :=
  fun st =>
    (Return tt,
     {| points := points st; _design_space := _design_space st;
        _egor := _egor st; stored := S (stored st) |}).

(** Property [design_space], lines 244-273: built on first use and kept in
    [self._design_space], which is set to the empty list before the loop. *)
Definition design_space : EM (list XSpec) :=
  fun st =>
    match _design_space st with
    | Some specs => (Return specs, st)
    | None =>
        let '(stopped, specs) := append_xspecs (des_vars problem) [] in
        (match stopped with None => Return specs | Some e => Throw e end,
         {| points := points st; _design_space := Some specs;
            _egor := _egor st; stored := stored st |})
    end.

Variable seed : option Z.

(** Property [egor], lines 229-242. *)
Definition egor : EM EgorConfig :=
  fun st =>
    match _egor st with
    | Some cfg => (Return cfg, st)
    | None =>
        (let kpls_dim := if (9 <? n_var problem)%nat then Some 3 else None in
         specs <-- design_space ;;
         n_cstr <-- (fun st => (_get_constraints_nb, st)) ;;
         let cfg := {| cfg_design_space := specs; cfg_n_cstr := n_cstr;
                       cfg_seed := seed; cfg_kpls_dim := kpls_dim |} in
         fun st =>
           (Return cfg,
            {| points := points st; _design_space := _design_space st;
               _egor := Some cfg; stored := stored st |})) st
    end.

Variable results_folder : string.
Variable n_init : Z.
Variable res : Type.
Variable engine : EgorEngine res.

(** [initialize_from_previous], lines 143-158. *)
Definition initialize_from_previous (folder : option string) : EM unit :=
  let folder := match folder with None => results_folder | Some f => f end in
  match load_previous_results problem folder with
  | Some pop => p <-- elift (_get_xy pop) ;; set_points p
  | None => eret tt
  end.

(** [_evaluate], lines 286-296. *)
Definition _evaluate (x : matrix) : population := problem_evaluate problem x.

(** [_sample_doe], lines 205-206. *)
Definition _sample_doe (n : Z) : matrix := sample_doe engine n.

(** [_run_doe], lines 189-203. *)
Definition _run_doe (n : option Z) : EM unit :=
  let n := match n with None => n_init | Some n => n end in
  let x_doe := _sample_doe n in
  p <-- elift (_get_xy (_evaluate x_doe)) ;;
  set_points p ;;;;
  _save_results.

(** One pass of the loop of [_run_infills], lines 210-225.  The log message
    reads [self._x.shape], which [None] does not have. *)
Definition infill_step : EM unit :=
  fun st =>
    match points st with
    | None => (Throw AttributeError, st)
    | Some _ =>
        (cfg <-- egor ;;
         fun st =>
           match points st with
           | None => (Throw AttributeError, st)
           | Some (x0, x_failed0, y0) =>
               match suggest engine cfg x0 y0 with
               | Throw e => (Throw e, st)
               | Return x_new =>
                   match _get_xy (_evaluate x_new) with
                   | Throw e => (Throw e, st)
                   | Return (x, x_failed, y) =>
                       (set_points (x0 ++ x, x_failed0 ++ x_failed, y0 ++ y) ;;;;
                        _save_results) st
                   end
               end
           end) st
    end.

Fixpoint repeat_step (k : nat) : EM unit :=
  match k with
  | O => eret tt
  | S k' => infill_step ;;;; repeat_step k'
  end.

(** [_run_infills], lines 208-227. *)
Definition _run_infills (n_infills : Z) : EM res :=
  repeat_step (Z.to_nat n_infills) ;;;;
  cfg <-- egor ;;
  fun st => (Return (get_result engine cfg (_x st) (egor_y st)), st).

(** [minimize], lines 160-187; [opt_res] is bound only when infill points are
    run. *)
Definition egor_minimize (n_infill : Z) : EM res :=
  (fun st =>
     match points st with
     | None => initialize_from_previous None st
     | Some _ => (Return tt, st)
     end) ;;;;
  (fun st =>
     if Z.of_nat (egor_n_tried st) <? n_init
     then _run_doe (Some (n_init - Z.of_nat (egor_n_tried st))) st
     else (Return tt, st)) ;;;;
  opt_res <-- (fun st =>
     let n_available := Z.of_nat (egor_n_tried st) in
     if n_available <? n_init + n_infill
     then
       match _run_infills (n_infill - (n_available - n_init)) st with
       | (Return r, st') => (Return (Some r), st')
       | (Throw e, st') => (Throw e, st')
       end
     else (Return None, st)) ;;
  _save_results ;;;;
  match opt_res with
  | Some r => eret r
  | None => ethrow UnboundLocalError
  end.

End WithProblem.

End Egor.

(** ** Notions used in the statements about the EGOR interface *)

Section EgorNotions.

Variable val : Type.
Variable problem : EgorProblem val.

(** The individuals a mask of failed points leaves, and those it takes. *)
Definition evaluated (pop : population val) : population val :=
  select_rows (List.map negb (get_failed_points val problem pop)) pop.

Definition failed (pop : population val) : population val :=
  select_rows (get_failed_points val problem pop) pop.

(** The individuals have [n_obj] objectives, [n_ieq_constr] inequality and
    [n_eq_constr] equality constraints. *)
Definition well_shaped (pop : population val) : Prop :=
  Forall (fun i => List.length (ind_F val i) = n_obj val problem
                   /\ List.length (ind_G val i) = n_ieq_constr val problem
                   /\ List.length (ind_H val i) = n_eq_constr val problem)
         pop.

(** [get_failed_points] answers with one mask entry per individual, as the
    boolean index of lines 315-317 needs. *)
Definition masked : Prop :=
  forall pop, List.length (get_failed_points val problem pop) = List.length pop.

(** The state with [self._design_space] set. *)
Definition with_design_space (st : EgorState val) (specs : list XSpec)
  : EgorState val :=
  {| points := points val st; _design_space := Some specs;
     _egor := _egor val st; stored := stored val st |}.

Variable results_folder : string.
Variable n_init : Z.
Variable res : Type.
Variable engine : EgorEngine val res.

(** [_x] and [_y] have one row each per evaluated point. *)
Definition aligned (st : EgorState val) : Prop :=
  match points val st with
  | None => True
  | Some (x, _, y) => List.length x = List.length y
  end.

(** One infill point was suggested, evaluated, added and stored. *)
Definition infilled (st st' : EgorState val) : Prop :=
  exists cfg x0 x_failed0 y0 x_new x x_failed y,
    points val st = Some (x0, x_failed0, y0)
    /\ suggest val res engine cfg x0 y0 = Return x_new
    /\ _get_xy val problem (_evaluate val problem x_new)
       = Return (x, x_failed, y)
    /\ points val st' = Some (x0 ++ x, x_failed0 ++ x_failed, y0 ++ y)
    /\ stored val st' = S (stored val st).

(** [k] infill points in a row. *)
Inductive infills : nat -> EgorState val -> EgorState val -> Prop :=
  | infills_none st st' :
      points val st' = points val st -> stored val st' = stored val st ->
      infills O st st'
  | infills_more k st st1 st' :
      infilled st st1 -> infills k st1 st' -> infills (S k) st st'.

(** The oracles answer in the expected sizes: one individual and one mask
    entry per design vector, [n] sampled points, one suggested point. *)
Definition sized : Prop :=
  (forall x, List.length (problem_evaluate val problem x) = List.length x)
  /\ (forall pop, List.length (get_failed_points val problem pop) = List.length pop)
  /\ (forall n, List.length (sample_doe val res engine n) = Z.to_nat n)
  /\ (forall cfg x y x', suggest val res engine cfg x y = Return x' ->
                         List.length x' = 1%nat).

(** The state with other points. *)
Definition with_points (st : EgorState val) (p : matrix val * matrix val * matrix val)
  : EgorState val :=
  {| points := Some p; _design_space := _design_space val st;
     _egor := _egor val st; stored := stored val st |}.

(** The state after one more [store_results]. *)
Definition saved (st : EgorState val) : EgorState val :=
  {| points := points val st; _design_space := _design_space val st;
     _egor := _egor val st; stored := S (stored val st) |}.

(** Lines 163-173 of [minimize]: the previous results are loaded when there
    are no points yet, and the DOE is run when fewer than [n_init] points are
    available. *)
Definition prepare : EM val unit :=
  @ebind val unit unit
    (fun st =>
       match points val st with
       | None => initialize_from_previous val problem results_folder None st
       | Some _ => (Return tt, st)
       end)
    (fun _ st =>
       if Z.of_nat (egor_n_tried val st) <? n_init
       then _run_doe val problem n_init res engine
              (Some (n_init - Z.of_nat (egor_n_tried val st))) st
       else (Return tt, st)).

(** The DOE that lines 168-173 run on the points of [st]. *)
Definition doe_points (st : EgorState val)
  : outcome (matrix val * matrix val * matrix val) :=
  _get_xy val problem
    (_evaluate val problem
       (_sample_doe val res engine (n_init - Z.of_nat (egor_n_tried val st)))).

End EgorNotions.

(** ** Test problems for the EGOR interface *)

(** Two variables, one objective and one inequality constraint; a point
    fails when its first coordinate is negative. *)
Definition egor_problem : EgorProblem Z := {|
  n_var := 2;
  n_obj := 1;
  n_ieq_constr := 1;
  n_eq_constr := 0;
  des_vars := [VReal 0 1; VInteger 0 3];
  problem_evaluate :=
    List.map (fun x => {| ind_X := x;
                          ind_F := [List.nth 0 x 0 + List.nth 1 x 0];
                          ind_G := [List.nth 0 x 0 - 2];
                          ind_H := [] |});
  get_failed_points := List.map (fun i => List.nth 0 (ind_X Z i) 0 <? 0);
  load_previous_results := fun _ => None
|}.

(** As [egor_problem], with a variable of a kind egobox has no type for. *)
Definition egor_problem_other : EgorProblem Z := {|
  n_var := 3;
  n_obj := 1;
  n_ieq_constr := 1;
  n_eq_constr := 0;
  des_vars := [VReal 0 1; VOther; VBinary];
  problem_evaluate := problem_evaluate Z egor_problem;
  get_failed_points := get_failed_points Z egor_problem;
  load_previous_results := fun _ => None
|}.

(** A sampler that counts up from -1 and an optimizer that suggests one new
    point at a time. *)
Definition egor_engine : EgorEngine Z (option (matrix Z) * matrix Z) := {|
  sample_doe := fun n =>
    List.map (fun k => [Z.of_nat k - 1; 1]) (List.seq 0 (Z.to_nat n));
  suggest := fun _ x _ => Return [[Z.of_nat (List.length x); 0]];
  get_result := fun _ x y => (x, y)
|}.

Definition egor_population : population Z :=
  problem_evaluate Z egor_problem [[-1; 1]; [0; 1]; [1; 1]].

(** As [egor_problem], with one equality constraint. *)
Definition egor_problem_eq : EgorProblem Z := {|
  n_var := 2;
  n_obj := 1;
  n_ieq_constr := 1;
  n_eq_constr := 1;
  des_vars := [VReal 0 1; VInteger 0 3];
  problem_evaluate :=
    List.map (fun x => {| ind_X := x;
                          ind_F := [List.nth 0 x 0 + List.nth 1 x 0];
                          ind_G := [List.nth 0 x 0 - 2];
                          ind_H := [List.nth 1 x 0] |});
  get_failed_points := get_failed_points Z egor_problem;
  load_previous_results := fun _ => None
|}.

(** ** The extreme-barrier evaluator ([algo/pymoo_interface/api.py]) *)

(** A float64 of the arrays [F], [G] and [H]: the evaluator tells NaN from
    the rest and writes [np.inf]; it does no arithmetic. *)
Inductive fvalue : Type :=
  | Number (q : Q)
  | PosInf
  | NegInf
  | NaN.

Definition isnan (v : fvalue) : bool :=
  match v with NaN => true | _ => false end.

(** The outputs of a population, one row per individual. *)
Record Outputs : Type := {
  out_F : list (list fvalue);
  out_G : list (list fvalue);
  out_H : list (list fvalue)
}.

(** Line 100: [values[np.isnan(values)] = np.inf]. *)
Definition replace_nan (values : list (list fvalue)) : list (list fvalue) :=
  List.map (List.map (fun v => if isnan v then PosInf else v)) values.

Definition nan_free (values : list (list fvalue)) : Prop :=
  Forall (Forall (fun v => isnan v = false)) values.

(** What the barrier does to one entry. *)
Definition barrier_entry (before after : fvalue) : Prop :=
  (isnan before = false -> after = before)
  /\ (isnan before = true -> after = PosInf).

Section ExtremeBarrierEvaluator.

(** [Evaluator._eval] of pymoo (line 96), which writes the outputs of the
    evaluated population. *)
Variable Evaluator_eval : Outputs -> Outputs.

(** Lines 95-102. *)
Definition ExtremeBarrierEvaluator_eval (pop : Outputs) : Outputs :=
  let pop := Evaluator_eval pop in
  {| out_F := replace_nan (out_F pop);
     out_G := replace_nan (out_G pop);
     out_H := replace_nan (out_H pop) |}.

End ExtremeBarrierEvaluator.

(** ** The SMT design space ([algo/arch_sbo/models.py]) *)

(** The design variables of SMT that [_get_design_variables] builds. *)
Inductive SmtVar : Type :=
  | FloatVariable (lower upper : Q)
  | IntegerVariable (lower upper : Z)
  | OrdinalVariable (values : list Z)
  | CategoricalVariable (values : list string).

Section SBArchOptDesignSpace.

(** The check an SMT constructor makes of its arguments: the exception it
    raises, or [None] when it accepts them. *)
Variable smt_check : SmtVar -> option pyexn.

Definition construct (v : SmtVar) : outcome SmtVar :=
  match smt_check v with
  | None => Return v
  | Some e => Throw e
  end.

(** Lines 195-214: the SMT variable of the variable at one position;
    [conditional] is [is_conditional[i]], read for a [Choice] only, and
    [None] where the array has no such entry. *)
Definition smt_var_of (normalize : bool) (conditional : option bool)
    (dv : DesVar) : outcome SmtVar :=
  match dv with
  | VReal lb ub =>
      if normalize then construct (FloatVariable 0 1)
      else construct (FloatVariable lb ub)
  | VInteger lb ub =>
      if normalize then construct (IntegerVariable 0 (ub - lb))
      else construct (IntegerVariable lb ub)
  | VBinary => construct (OrdinalVariable [0; 1])
  | VChoice options =>
      match conditional with
      | None => Throw IndexError
      | Some true =>
          construct (IntegerVariable 0 (Z.of_nat (List.length options) - 1))
      | Some false => construct (CategoricalVariable options)
      end
  | VOther => Throw ValueError
  end.

(** The loop of lines 194-215 from position [i] on. *)
Fixpoint design_variables_from (normalize : bool) (is_conditional : list bool)
    (i : nat) (dvs : list DesVar) : outcome (list SmtVar) :=
  match dvs with
  | [] => Return []
  | dv :: dvs' =>
      match smt_var_of normalize (List.nth_error is_conditional i) dv with
      | Throw e => Throw e
      | Return v =>
          match design_variables_from normalize is_conditional (S i) dvs' with
          | Throw e => Throw e
          | Return vs => Return (v :: vs)
          end
      end
  end.

(** Lines 190-216. *)
Definition _get_design_variables (normalize : bool)
    (is_conditional : list bool) (dvs : list DesVar) : outcome (list SmtVar) :=
  design_variables_from normalize is_conditional 0 dvs.

End SBArchOptDesignSpace.

(** The number of values of a discrete variable; [None] for a continuous
    one. *)
Definition des_var_size (dv : DesVar) : option Z :=
  match dv with
  | VReal _ _ => None
  | VInteger lb ub => Some (ub - lb + 1)
  | VBinary => Some 2
  | VChoice options => Some (Z.of_nat (List.length options))
  | VOther => None
  end.

Definition smt_var_size (v : SmtVar) : option Z :=
  match v with
  | FloatVariable _ _ => None
  | IntegerVariable lower upper => Some (upper - lower + 1)
  | OrdinalVariable values => Some (Z.of_nat (List.length values))
  | CategoricalVariable values => Some (Z.of_nat (List.length values))
  end.

(** The lower end of a variable with bounds starts the unit interval, or
    the integers from 0. *)
Definition starts_at_zero (v : SmtVar) : Prop :=
  match v with
  | FloatVariable lower upper => lower = 0%Q /\ upper = 1%Q
  | IntegerVariable lower _ => lower = 0
  | _ => True
  end.

(** * The model on concrete inputs *)

Example crowding_of_four_points :
  List.forallb (fun p => score_eqb (fst p) (snd p))
    (List.combine
       (calc_crowding_distance [[0; 10]; [1; 8]; [5; 3]; [10; 0]])
       [Infinite; Finite (6 # 10); Finite (85 # 100); Infinite]) = true.
Proof. vm_compute. reflexivity. Qed.

Example reduce_four_points :
  reduce_step pymoo_crowding [[0; 10]; [1; 8]; [5; 3]; [10; 0]]
  = [[5; 3]; [0; 10]; [10; 0]].
Proof. vm_compute. reflexivity. Qed.

Example md5_empty : MD5.hexdigest [] = "d41d8cd98f00b204e9800998ecf8427e"%string.
Proof. vm_compute. reflexivity. Qed.

Example md5_abc :
  MD5.hexdigest (bytes_of_ascii_text "abc") = "900150983cd24fb0d6963f7d28e17f72"%string.
Proof. vm_compute. reflexivity. Qed.

Example md5_two_blocks :
  MD5.hexdigest (bytes_of_ascii_text
    "12345678901234567890123456789012345678901234567890123456789012345678901234567890")
  = "57edf4a22be3c955ac49da2e2107b67a"%string.
Proof. vm_compute. reflexivity. Qed.

(** * Properties *)

(** The lemmas about each part of the embedding, with the claims [C1]-[C10]
    where their topic comes up. *)

(** ** Dominance and the non-dominated filter *)

Lemma any_lt_cons (x y : Z) (a b : row) :
  any_lt (x :: a) (y :: b) = (x <? y) || any_lt a b.
Proof. reflexivity. Qed.

Lemma any_lt_refl (a : row) : any_lt a a = false.
Proof.
  induction a as [|x a IH]; [reflexivity|].
  rewrite any_lt_cons, IH, orb_false_r. apply Z.ltb_irrefl.
Qed.

Lemma dominates_irrefl (a : row) : dominates a a = false.
Proof. unfold dominates. now rewrite any_lt_refl. Qed.

(** On rows of one length, [<=] everywhere composes, and so does a strict
    step with it. *)
Lemma any_lt_trans_le (a b c : row) :
  List.length a = List.length b -> List.length b = List.length c ->
  any_lt b a = false -> any_lt c b = false ->
  any_lt c a = false
  /\ (any_lt a b = true \/ any_lt b c = true -> any_lt a c = true).
Proof.
  revert b c. induction a as [|x a IH]; intros [|y b] [|z c];
    try discriminate; intros Hab Hbc H1 H2.
  - split; [reflexivity|]. intros [H|H]; discriminate.
  - rewrite !any_lt_cons in *.
    apply orb_false_iff in H1 as [H1 H1'], H2 as [H2 H2'].
    simpl in Hab, Hbc.
    destruct (IH b c) as [IH1 IH2]; try lia; auto.
    apply Z.ltb_ge in H1, H2.
    split.
    + rewrite IH1, orb_false_r. apply Z.ltb_ge. lia.
    + intros H. apply orb_true_iff.
      destruct H as [H|H]; apply orb_true_iff in H as [H|H];
        simpl in H;
        try (apply Z.ltb_lt in H; left; apply Z.ltb_lt; lia);
        right; apply IH2; auto.
Qed.

Lemma dominates_trans (a b c : row) :
  List.length a = List.length b -> List.length b = List.length c ->
  dominates a b = true -> dominates b c = true -> dominates a c = true.
Proof.
  unfold dominates. intros Hab Hbc H1 H2.
  apply andb_true_iff in H1 as [H1 H1'], H2 as [H2 H2'].
  apply negb_true_iff in H1', H2'.
  destruct (any_lt_trans_le a b c Hab Hbc H1' H2') as [H3 H4].
  rewrite H3, H4; auto.
Qed.

Lemma is_dominated_spec (F : front) (f : row) :
  is_dominated F f = true <-> exists g, In g F /\ dominates g f = true.
Proof. unfold is_dominated. apply List.existsb_exists. Qed.

Lemma is_dominated_false (F : front) (f : row) :
  is_dominated F f = false <-> forall g, In g F -> dominates g f = false.
Proof.
  split.
  - intros H g Hg. destruct (dominates g f) eqn:E; [|reflexivity].
    assert (is_dominated F f = true) by (apply is_dominated_spec; eauto).
    congruence.
  - intros H. destruct (is_dominated F f) eqn:E; [|reflexivity].
    apply is_dominated_spec in E as [g [Hg E]]. rewrite (H g Hg) in E.
    discriminate.
Qed.

(** Selecting by filtered indices is filtering the rows. *)
Lemma take_filtered_indices (p : row -> bool) (pre F : front) :
  List.map (fun i => List.nth i (pre ++ F) [])
    (List.filter (fun i => p (List.nth i (pre ++ F) []))
       (List.seq (List.length pre) (List.length F)))
  = List.filter p F.
Proof.
  revert pre. induction F as [|f F IH]; intros pre; [reflexivity|].
  simpl List.length. simpl List.seq. simpl List.filter.
  assert (Hnth : List.nth (List.length pre) (pre ++ f :: F) [] = f).
  { rewrite List.app_nth2 by lia. now rewrite Nat.sub_diag. }
  rewrite Hnth.
  specialize (IH (pre ++ [f])).
  rewrite <- List.app_assoc in IH. simpl in IH.
  rewrite List.length_app in IH. simpl in IH.
  replace (List.length pre + 1)%nat with (S (List.length pre)) in IH by lia.
  destruct (p f); simpl; rewrite ?Hnth, IH; reflexivity.
Qed.

Lemma non_dominated_front_filter (F : front) :
  non_dominated_front F = List.filter (fun f => negb (is_dominated F f)) F.
Proof.
  unfold non_dominated_front, non_dominated_indices, take_rows.
  apply (take_filtered_indices (fun f => negb (is_dominated F f)) [] F).
Qed.

Lemma in_non_dominated_front (F : front) (f : row) :
  In f (non_dominated_front F) <-> In f F /\ is_dominated F f = false.
Proof.
  rewrite non_dominated_front_filter, List.filter_In.
  now rewrite negb_true_iff.
Qed.



Lemma non_dominated_front_id (F : front) :
  mutually_non_dominated F -> non_dominated_front F = F.
Proof.
  intros H. rewrite non_dominated_front_filter.
  apply List.forallb_filter_id, List.forallb_forall.
  intros f Hf. apply negb_true_iff, is_dominated_false. intros g Hg. now apply H.
Qed.

Lemma filter_length_le {A} (p q : A -> bool) (l : list A) :
  (forall y, In y l -> p y = true -> q y = true) ->
  (List.length (List.filter p l) <= List.length (List.filter q l))%nat.
Proof.
  induction l as [|a l IH]; intros H; simpl; [lia|].
  assert (IH' := IH (fun y Hy => H y (or_intror Hy))).
  destruct (p a) eqn:Ep.
  - rewrite (H a (or_introl eq_refl) Ep). simpl. lia.
  - destruct (q a); simpl; lia.
Qed.

Lemma filter_length_lt {A} (p q : A -> bool) (l : list A) (x : A) :
  (forall y, In y l -> p y = true -> q y = true) ->
  In x l -> q x = true -> p x = false ->
  (List.length (List.filter p l) < List.length (List.filter q l))%nat.
Proof.
  induction l as [|a l IH]; intros H Hx Hq Hp; [destruct Hx|].
  assert (Hle := filter_length_le p q l (fun y Hy => H y (or_intror Hy))).
  simpl. destruct Hx as [->|Hx].
  - rewrite Hq, Hp. simpl. lia.
  - assert (IH' := IH (fun y Hy => H y (or_intror Hy)) Hx Hq Hp).
    destruct (p a) eqn:Ep.
    + rewrite (H a (or_introl eq_refl) Ep). simpl. lia.
    + destruct (q a); simpl; lia.
Qed.

(** In a finite array every dominated row has a dominator that nothing
    dominates. *)
Lemma dominated_by_non_dominated (n_obj : nat) (F : front) :
  is_matrix n_obj F ->
  forall (k : nat) (f : row),
    List.length f = n_obj ->
    (List.length (List.filter (fun g => dominates g f) F) <= k)%nat ->
    is_dominated F f = true ->
    exists g, In g (non_dominated_front F) /\ dominates g f = true.
Proof.
  intros HF. pose proof (proj1 (List.Forall_forall _ _) HF) as Hlen.
  induction k as [|k IH]; intros f Hf Hk Hdom;
    apply is_dominated_spec in Hdom as [g [Hg Hgf]].
  - assert (In g (List.filter (fun g => dominates g f) F))
      by (apply List.filter_In; auto).
    destruct (List.filter (fun g => dominates g f) F); [contradiction|].
    simpl in Hk. lia.
  - destruct (is_dominated F g) eqn:Eg.
    + destruct (IH g) as [h [Hh Hhg]]; auto.
      * assert (List.length (List.filter (fun h => dominates h g) F)
                < List.length (List.filter (fun h => dominates h f) F))%nat;
          [|lia].
        apply (filter_length_lt _ _ F g); auto using dominates_irrefl.
        intros h Hh Hhg. apply (dominates_trans h g f); auto.
        -- rewrite (Hlen h Hh). symmetry. auto.
        -- rewrite (Hlen g Hg). symmetry. auto.
      * exists h. split; auto.
        apply in_non_dominated_front in Hh as Hh'. destruct Hh' as [Hh' _].
        apply (dominates_trans h g f); auto.
        -- rewrite (Hlen h Hh'). symmetry. auto.
        -- rewrite (Hlen g Hg). symmetry. auto.
    + exists g. split; auto. apply in_non_dominated_front. auto.
Qed.

Lemma is_dominated_app (A B : front) (f : row) :
  is_dominated (A ++ B) f = is_dominated A f || is_dominated B f.
Proof. apply List.existsb_app. Qed.

Lemma is_dominated_merge (n_obj : nat) (A B : front) (f : row) :
  is_matrix n_obj A -> List.length f = n_obj ->
  is_dominated (non_dominated_front A ++ B) f = is_dominated (A ++ B) f.
Proof.
  intros HA Hf. rewrite !is_dominated_app.
  destruct (is_dominated B f); [now rewrite !orb_true_r|].
  rewrite !orb_false_r.
  destruct (is_dominated A f) eqn:EA.
  - destruct (dominated_by_non_dominated n_obj A HA _ f Hf (le_n _) EA)
      as [g [Hg Hgf]].
    apply is_dominated_spec. eauto.
  - apply is_dominated_false. intros g Hg.
    apply in_non_dominated_front in Hg as [Hg _].
    now apply (proj1 (is_dominated_false A f)).
Qed.

Lemma filter_filter_and {A} (p q : A -> bool) (l : list A) :
  List.filter p (List.filter q l) = List.filter (fun x => q x && p x) l.
Proof.
  induction l as [|a l IH]; [reflexivity|].
  simpl. destruct (q a); simpl; rewrite IH; reflexivity.
Qed.

(** Filtering the running front together with a new front is filtering
    everything seen so far (lines 90-92). *)
Lemma non_dominated_front_merge (n_obj : nat) (A B : front) :
  is_matrix n_obj A -> is_matrix n_obj B ->
  non_dominated_front (non_dominated_front A ++ B) = non_dominated_front (A ++ B).
Proof.
  intros HA HB.
  rewrite (non_dominated_front_filter (A ++ B)).
  rewrite (non_dominated_front_filter (non_dominated_front A ++ B)).
  rewrite !List.filter_app. f_equal.
  - rewrite (non_dominated_front_filter A). rewrite filter_filter_and.
    apply List.filter_ext_in. intros f Hf.
    rewrite <- (non_dominated_front_filter A).
    rewrite (is_dominated_merge n_obj A B f HA)
      by (apply (proj1 (List.Forall_forall _ _) HA); auto).
    rewrite is_dominated_app.
    destruct (is_dominated A f); reflexivity.
  - apply List.filter_ext_in. intros f Hf.
    rewrite (is_dominated_merge n_obj A B f HA)
      by (apply (proj1 (List.Forall_forall _ _) HB); auto).
    reflexivity.
Qed.

Lemma is_matrix_app (n_obj : nat) (A B : front) :
  is_matrix n_obj A -> is_matrix n_obj B -> is_matrix n_obj (A ++ B).
Proof. intros HA HB. apply List.Forall_app. auto. Qed.

(** The loop of lines 85-92 from a running front that is already a
    non-dominated filter. *)
Lemma merge_runs_filtered (n_obj : nat) (Fs : list front) :
  Forall (is_matrix n_obj) Fs ->
  forall X, is_matrix n_obj X ->
    merge_runs (Some (non_dominated_front X)) (List.map Ok Fs)
    = Ok (Some (non_dominated_front (X ++ List.concat Fs))).
Proof.
  induction 1 as [|F Fs HF HFs IH]; intros X HX; simpl.
  - now rewrite List.app_nil_r.
  - rewrite (non_dominated_front_merge n_obj X F HX HF).
    rewrite IH by (apply is_matrix_app; auto).
    now rewrite <- List.app_assoc.
Qed.

(** The loop state after a prefix of the futures is what the loop continues
    from. *)
Lemma merge_runs_app (pf : option front) (l1 l2 : list (result front)) :
  merge_runs pf (l1 ++ l2)
  = match merge_runs pf l1 with
    | Ok pf' => merge_runs pf' l2
    | Raise e => Raise e
    end.
Proof.
  revert pf. induction l1 as [|[F|e] l1 IH]; intros pf; simpl; auto.
Qed.

Lemma merge_runs_all_ok (n_obj : nat) (Fs : list front) :
  Forall (is_matrix n_obj) Fs -> Forall mutually_non_dominated Fs ->
  Fs <> [] ->
  merge_runs None (List.map Ok Fs)
  = Ok (Some (non_dominated_front (List.concat Fs))).
Proof.
  intros HM HN Hne. destruct Fs as [|F Fs]; [congruence|].
  inversion HM; inversion HN; subst. simpl.
  rewrite <- (non_dominated_front_id F) at 1 by assumption.
  now apply (merge_runs_filtered n_obj).
Qed.

Lemma is_dominated_perm (X Y : front) (f : row) :
  Permutation X Y -> is_dominated X f = is_dominated Y f.
Proof.
  intros HP.
  destruct (is_dominated X f) eqn:EX; symmetry.
  - apply is_dominated_spec in EX as [g [Hg E]]. apply is_dominated_spec.
    exists g. split; auto. now apply (Permutation_in _ HP).
  - apply is_dominated_false. intros g Hg.
    apply (proj1 (is_dominated_false X f) EX).
    now apply (Permutation_in _ (Permutation_sym HP)).
Qed.

Lemma filter_perm {A} (p : A -> bool) (l l' : list A) :
  Permutation l l' -> Permutation (List.filter p l) (List.filter p l').
Proof.
  induction 1 as [|x l l' HP IH|x y l|l l' l'' HP1 IH1 HP2 IH2]; simpl.
  - constructor.
  - destruct (p x); auto.
  - destruct (p x), (p y); auto. constructor.
  - now transitivity (List.filter p l').
Qed.

Lemma non_dominated_front_perm (X Y : front) :
  Permutation X Y -> Permutation (non_dominated_front X) (non_dominated_front Y).
Proof.
  intros HP. rewrite !non_dominated_front_filter.
  rewrite (List.filter_ext _ (fun f => negb (is_dominated Y f)))
    by (intros f; now rewrite (is_dominated_perm X Y f HP)).
  now apply filter_perm.
Qed.

Lemma concat_perm {A} (l l' : list (list A)) :
  Permutation l l' -> Permutation (List.concat l) (List.concat l').
Proof.
  induction 1; simpl.
  - constructor.
  - now apply Permutation_app_head.
  - rewrite !List.app_assoc. apply Permutation_app_tail, Permutation_app_comm.
  - etransitivity; eauto.
Qed.

(** ** [np_unique]: the lexicographic order and the sorted, duplicate-free result *)

Lemma row_compare_eq (a b : row) : row_compare a b = Eq <-> a = b.
Proof.
  revert b. induction a as [|x a IH]; intros [|y b]; simpl;
    try (split; [discriminate|congruence]); [tauto|].
  destruct (Z.compare_spec x y) as [->|H|H].
  - rewrite IH. split; congruence.
  - split; [discriminate|]. intros E. inversion E. lia.
  - split; [discriminate|]. intros E. inversion E. lia.
Qed.

Lemma row_compare_antisym (a b : row) :
  row_compare b a = CompOpp (row_compare a b).
Proof.
  revert b. induction a as [|x a IH]; intros [|y b]; simpl; auto.
  rewrite (Z.compare_antisym x y).
  destruct (x ?= y); simpl; auto.
Qed.

Lemma row_lt_irrefl (a : row) : ~ row_lt a a.
Proof.
  unfold row_lt. rewrite (proj2 (row_compare_eq a a) eq_refl). discriminate.
Qed.

Lemma row_lt_trans (a b c : row) : row_lt a b -> row_lt b c -> row_lt a c.
Proof.
  unfold row_lt. revert b c.
  induction a as [|x a IH]; intros [|y b] [|z c]; simpl; try discriminate; auto.
  destruct (Z.compare_spec x y), (Z.compare_spec y z); try discriminate;
    subst; intros H1 H2.
  - rewrite Z.compare_refl. eauto.
  - now rewrite (proj2 (Z.compare_lt_iff _ _)) by lia.
  - now rewrite (proj2 (Z.compare_lt_iff _ _)) by lia.
  - now rewrite (proj2 (Z.compare_lt_iff _ _)) by lia.
Qed.

Lemma row_compare_gt (a b : row) : row_compare a b = Gt -> row_lt b a.
Proof.
  unfold row_lt. intros H. rewrite row_compare_antisym, H. reflexivity.
Qed.

Lemma in_insert_row (f g : row) (pf : front) :
  In g (insert_row f pf) <-> g = f \/ In g pf.
Proof.
  induction pf as [|h pf IH]; simpl; [intuition|].
  destruct (row_compare f h) eqn:E; simpl.
  - apply row_compare_eq in E. subst. intuition.
  - intuition.
  - rewrite IH. intuition.
Qed.

Lemma insert_row_sorted (f : row) (pf : front) :
  StronglySorted row_lt pf -> StronglySorted row_lt (insert_row f pf).
Proof.
  induction 1 as [|h pf Hs IH Hall]; simpl.
  - repeat constructor.
  - destruct (row_compare f h) eqn:E.
    + now constructor.
    + constructor; [now constructor|]. constructor; auto.
      eapply List.Forall_impl; [|exact Hall].
      intros g Hg. now apply (row_lt_trans f h g).
    + constructor; auto. apply List.Forall_forall. intros g Hg.
      apply in_insert_row in Hg as [->|Hg].
      * now apply row_compare_gt.
      * now apply (proj1 (List.Forall_forall _ _) Hall).
Qed.

Lemma np_unique_sorted (pf : front) : StronglySorted row_lt (np_unique pf).
Proof.
  induction pf as [|f pf IH]; simpl; [constructor|].
  now apply insert_row_sorted.
Qed.

Lemma in_np_unique (pf : front) (f : row) : In f (np_unique pf) <-> In f pf.
Proof.
  induction pf as [|g pf IH]; simpl; [tauto|].
  rewrite in_insert_row, IH. intuition.
Qed.

Lemma sorted_rows_NoDup (pf : front) : StronglySorted row_lt pf -> List.NoDup pf.
Proof.
  induction 1 as [|f pf Hs IH Hall]; constructor; auto.
  intros Hin. apply (row_lt_irrefl f).
  now apply (proj1 (List.Forall_forall _ _) Hall).
Qed.

Lemma np_unique_NoDup (pf : front) : List.NoDup (np_unique pf).
Proof. apply sorted_rows_NoDup, np_unique_sorted. Qed.

(** A sorted duplicate-free array is determined by its set of rows. *)
Lemma sorted_rows_unique (A B : front) :
  StronglySorted row_lt A -> StronglySorted row_lt B ->
  (forall f, In f A <-> In f B) -> A = B.
Proof.
  intros HA. revert B.
  induction HA as [|a A HsA IH HallA]; intros B HB Heq.
  - destruct B as [|b B]; [reflexivity|].
    destruct (proj2 (Heq b) (or_introl eq_refl)).
  - destruct HB as [|b B HsB HallB].
    + destruct (proj1 (Heq a) (or_introl eq_refl)).
    + pose proof (proj1 (List.Forall_forall _ _) HallA) as HA'.
      pose proof (proj1 (List.Forall_forall _ _) HallB) as HB'.
      assert (a = b).
      { destruct (proj1 (Heq a) (or_introl eq_refl)) as [E|Ha]; [auto|].
        destruct (proj2 (Heq b) (or_introl eq_refl)) as [E|Hb]; [auto|].
        exfalso. apply (row_lt_irrefl a).
        apply (row_lt_trans a b a); auto. }
      subst b. f_equal. apply IH; auto.
      intros f. split; intros Hf.
      * destruct (proj1 (Heq f) (or_intror Hf)) as [E|]; auto.
        subst f. exfalso. apply (row_lt_irrefl a); auto.
      * destruct (proj2 (Heq f) (or_intror Hf)) as [E|]; auto.
        subst f. exfalso. apply (row_lt_irrefl a); auto.
Qed.

Lemma np_unique_ext (A B : front) :
  (forall f, In f A <-> In f B) -> np_unique A = np_unique B.
Proof.
  intros H. apply sorted_rows_unique; auto using np_unique_sorted.
  intros f. rewrite !in_np_unique. apply H.
Qed.

Lemma np_unique_incl (pf : front) : List.incl (np_unique pf) pf.
Proof. intros f. apply in_np_unique. Qed.

(** ** [argsort]: a permutation of the indices, ascending in the scores *)

Lemma score_leb_total (s t : score) : score_leb s t = false -> score_leb t s = true.
Proof.
  destruct s as [p|], t as [q|]; simpl; try congruence.
  intros H. apply Qle_bool_iff.
  destruct (Qlt_le_dec q p) as [Hlt|Hle].
  - now apply Qlt_le_weak.
  - apply Qle_bool_iff in Hle. congruence.
Qed.

Lemma score_leb_refl (s : score) : score_leb s s = true.
Proof. destruct s as [p|]; simpl; auto. apply Qle_bool_iff, Qle_refl. Qed.

Lemma score_leb_trans (s t u : score) :
  score_leb s t = true -> score_leb t u = true -> score_leb s u = true.
Proof.
  destruct s as [p|], t as [q|], u as [r|]; simpl; try congruence.
  rewrite !Qle_bool_iff. apply Qle_trans.
Qed.

Lemma insert_index_perm (key : nat -> score) (i : nat) (l : list nat) :
  Permutation (insert_index key i l) (i :: l).
Proof.
  induction l as [|j l IH]; simpl; [reflexivity|].
  destruct (score_leb (key i) (key j)); [reflexivity|].
  rewrite IH. apply perm_swap.
Qed.

Lemma argsort_perm (n : nat) (key : nat -> score) :
  Permutation (argsort n key) (List.seq 0 n).
Proof.
  unfold argsort. induction (List.seq 0 n) as [|i l IH]; simpl; [reflexivity|].
  rewrite insert_index_perm. now constructor.
Qed.

Lemma argsort_length (n : nat) (key : nat -> score) :
  List.length (argsort n key) = n.
Proof.
  rewrite (Permutation_length (argsort_perm n key)). apply List.length_seq.
Qed.

Lemma in_argsort (n : nat) (key : nat -> score) (i : nat) :
  In i (argsort n key) <-> (i < n)%nat.
Proof.
  split; intros H.
  - apply (Permutation_in _ (argsort_perm n key)) in H.
    apply List.in_seq in H. lia.
  - apply (Permutation_in _ (Permutation_sym (argsort_perm n key))).
    apply List.in_seq. lia.
Qed.

Lemma argsort_NoDup (n : nat) (key : nat -> score) : List.NoDup (argsort n key).
Proof.
  apply (Permutation_NoDup (Permutation_sym (argsort_perm n key))).
  apply List.seq_NoDup.
Qed.

Lemma insert_index_ascending (key : nat -> score) (i : nat) (l : list nat) :
  ascending key l -> ascending key (insert_index key i l).
Proof.
  unfold ascending. induction 1 as [|j l Hs IH Hall]; simpl.
  - repeat constructor.
  - destruct (score_leb (key i) (key j)) eqn:E.
    + constructor; [now constructor|]. constructor; auto.
      eapply List.Forall_impl; [|exact Hall].
      intros k Hk. simpl in Hk. now apply (score_leb_trans _ (key j)).
    + constructor; auto. apply List.Forall_forall. intros k Hk.
      apply (Permutation_in _ (insert_index_perm key i l)) in Hk.
      destruct Hk as [<-|Hk].
      * now apply score_leb_total.
      * now apply (proj1 (List.Forall_forall _ _) Hall).
Qed.

Lemma argsort_ascending (n : nat) (key : nat -> score) :
  ascending key (argsort n key).
Proof.
  unfold argsort. induction (List.seq 0 n) as [|i l IH]; simpl.
  - constructor.
  - now apply insert_index_ascending.
Qed.

(** The index at position 0 of the argsort has a lowest score. *)
Lemma argsort_head_lowest (n : nat) (key : nat -> score) (i : nat) (rest : list nat) :
  argsort n key = i :: rest ->
  (i < n)%nat /\ forall j, (j < n)%nat -> score_leb (key i) (key j) = true.
Proof.
  intros E. split.
  - apply (in_argsort n key). rewrite E. now left.
  - intros j Hj. apply (in_argsort n key) in Hj. rewrite E in Hj.
    pose proof (argsort_ascending n key) as Hs. rewrite E in Hs.
    inversion Hs as [|? ? _ Hall]; subst.
    destruct Hj as [<-|Hj].
    + apply score_leb_refl.
    + now apply (proj1 (List.Forall_forall _ _) Hall).
Qed.

(** ** One pass of the reduction *)

Lemma take_rows_all (pf : front) : take_rows pf (List.seq 0 (List.length pf)) = pf.
Proof.
  pose proof (take_filtered_indices (fun _ => true) [] pf) as H.
  simpl in H. unfold take_rows.
  rewrite (List.forallb_filter_id (fun _ => true)) in H
    by (apply List.forallb_forall; auto).
  rewrite (List.forallb_filter_id (fun _ => true)) in H
    by (apply List.forallb_forall; auto).
  exact H.
Qed.

Lemma in_take_rows (pf : front) (idx : list nat) (f : row) :
  (forall i, In i idx -> (i < List.length pf)%nat) ->
  In f (take_rows pf idx) -> In f pf.
Proof.
  intros Hidx Hf. apply List.in_map_iff in Hf as [i [<- Hi]].
  apply List.nth_In. auto.
Qed.

Lemma take_rows_NoDup (pf : front) (idx : list nat) :
  List.NoDup pf -> List.NoDup idx ->
  (forall i, In i idx -> (i < List.length pf)%nat) ->
  List.NoDup (take_rows pf idx).
Proof.
  intros Hpf Hidx. induction Hidx as [|i idx Hi Hnd IH]; intros Hlt; simpl.
  - constructor.
  - constructor.
    + intros Hin. apply List.in_map_iff in Hin as [j [Hj Hin]].
      apply (proj1 (List.NoDup_nth pf []) Hpf) in Hj.
      * subst j. contradiction.
      * apply Hlt. now right.
      * apply Hlt. now left.
    + apply IH. intros j Hj. apply Hlt. now right.
Qed.

Section ReductionFacts.

Variable crowding : front -> nat -> score.

Lemma crowding_order_perm (pf : front) :
  Permutation (crowding_order crowding pf) (List.seq 0 (List.length pf)).
Proof. apply argsort_perm. Qed.

Lemma crowding_order_tl_lt (pf : front) (i : nat) :
  In i (List.tl (crowding_order crowding pf)) -> (i < List.length pf)%nat.
Proof.
  intros H. apply (in_argsort (List.length pf) (crowding pf)).
  unfold crowding_order in H.
  destruct (argsort (List.length pf) (crowding pf)); [destruct H|now right].
Qed.

Lemma reduce_step_length (pf : front) :
  List.length (reduce_step crowding pf) = (List.length pf - 1)%nat.
Proof.
  unfold reduce_step, take_rows, crowding_order.
  rewrite List.length_map.
  pose proof (argsort_length (List.length pf) (crowding pf)) as H.
  destruct (argsort (List.length pf) (crowding pf)); simpl in *; lia.
Qed.

Lemma reduce_step_incl (pf : front) : List.incl (reduce_step crowding pf) pf.
Proof.
  intros f Hf. apply (in_take_rows pf _ f (crowding_order_tl_lt pf) Hf).
Qed.

Lemma reduce_step_NoDup (pf : front) :
  List.NoDup pf -> List.NoDup (reduce_step crowding pf).
Proof.
  intros H. apply take_rows_NoDup; auto using crowding_order_tl_lt.
  pose proof (argsort_NoDup (List.length pf) (crowding pf)) as Hnd.
  unfold crowding_order.
  destruct (argsort (List.length pf) (crowding pf)); simpl; auto.
  now inversion Hnd.
Qed.

(** A pass takes out exactly the row at position 0 of the argsort. *)
Lemma reduce_step_drops (pf : front) (i : nat) (rest : list nat) :
  crowding_order crowding pf = i :: rest ->
  Permutation pf (List.nth i pf [] :: reduce_step crowding pf).
Proof.
  intros E. unfold reduce_step. rewrite E. simpl.
  change (Permutation pf (take_rows pf (i :: rest))). rewrite <- E.
  rewrite <- (take_rows_all pf) at 1.
  apply Permutation_map, Permutation_sym, crowding_order_perm.
Qed.

Lemma crowding_order_nonempty (pf : front) :
  pf <> [] -> exists i rest, crowding_order crowding pf = i :: rest.
Proof.
  intros Hne. pose proof (argsort_length (List.length pf) (crowding pf)) as H.
  unfold crowding_order.
  destruct (argsort (List.length pf) (crowding pf)) as [|i rest]; eauto.
  destruct pf; [congruence|discriminate].
Qed.

End ReductionFacts.

(** ** The reduction loop *)

Lemma reduce_step_drops_lowest (crowding : front -> nat -> score) (pf : front) :
  pf <> [] -> drops_lowest crowding pf (reduce_step crowding pf).
Proof.
  intros Hne. destruct (crowding_order_nonempty crowding pf Hne) as [i [rest E]].
  exists i, rest.
  destruct (argsort_head_lowest _ _ _ _ E) as [Hi Hlow].
  repeat split; auto.
  - unfold reduce_step. now rewrite E.
  - now apply (reduce_step_drops crowding pf i rest).
Qed.

Lemma reduce_loop_spec (crowding : front -> nat -> score) (n : nat) :
  forall (pf : front) (passes : list front) (out : front),
    (n <= List.length pf)%nat ->
    reduce_loop crowding n pf = (passes, out) ->
    List.length passes = n
    /\ List.length out = (List.length pf - n)%nat
    /\ List.nth 0 (passes ++ [out]) [] = pf
    /\ forall j, (j < n)%nat ->
         drops_lowest crowding (List.nth j (passes ++ [out]) [])
                               (List.nth (S j) (passes ++ [out]) []).
Proof.
  induction n as [|n IH]; intros pf passes out Hn E; simpl in E.
  - inversion E; subst. simpl. repeat split; lia.
  - destruct (reduce_loop crowding n (reduce_step crowding pf)) as [seen out']
      eqn:E'.
    inversion E; subst. clear E.
    assert (Hlen := reduce_step_length crowding pf).
    destruct (IH (reduce_step crowding pf) seen out) as [H1 [H2 [H3 H4]]];
      [lia|exact E'|].
    simpl. repeat split; try lia.
    intros [|j] Hj.
    + simpl. rewrite H3. apply reduce_step_drops_lowest.
      destruct pf; [simpl in Hn; lia|discriminate].
    + apply H4. lia.
Qed.

Lemma reduce_front_incl (crowding : front -> nat -> score) (pf : front)
  (keep : option Z) :
  List.incl (snd (reduce_front crowding pf keep)) pf.
Proof.
  assert (Hloop : forall n p, List.incl (snd (reduce_loop crowding n p)) p).
  { induction n as [|n IH]; intros p; simpl; [apply List.incl_refl|].
    specialize (IH (reduce_step crowding p)).
    destruct (reduce_loop crowding n (reduce_step crowding p)). simpl in *.
    eapply List.incl_tran; [exact IH|apply reduce_step_incl]. }
  unfold reduce_front. destruct keep as [k|]; [|apply List.incl_refl].
  destruct (Z.of_nat (List.length pf) >? k); [apply Hloop|apply List.incl_refl].
Qed.

Lemma reduce_front_NoDup (crowding : front -> nat -> score) (pf : front)
  (keep : option Z) :
  List.NoDup pf -> List.NoDup (snd (reduce_front crowding pf keep)).
Proof.
  assert (Hloop : forall n p, List.NoDup p ->
                              List.NoDup (snd (reduce_loop crowding n p))).
  { induction n as [|n IH]; intros p Hp; simpl; auto.
    specialize (IH (reduce_step crowding p) (reduce_step_NoDup crowding p Hp)).
    now destruct (reduce_loop crowding n (reduce_step crowding p)). }
  intros H. unfold reduce_front. destruct keep as [k|]; auto.
  destruct (Z.of_nat (List.length pf) >? k); auto.
Qed.

(** No pass is made without a limit or within the limit. *)
Lemma reduce_front_within (crowding : front -> nat -> score) (pf : front)
  (keep : option Z) :
  match keep with
  | None => True
  | Some k => Z.of_nat (List.length pf) <= k
  end ->
  reduce_front crowding pf keep = ([], pf).
Proof.
  unfold reduce_front. destruct keep as [k|]; auto. intros H.
  destruct (Z.gtb_spec (Z.of_nat (List.length pf)) k); auto. lia.
Qed.

Lemma reduce_front_length (crowding : front -> nat -> score) (pf : front)
  (k : Z) :
  0 <= k < Z.of_nat (List.length pf) ->
  Z.of_nat (List.length (fst (reduce_front crowding pf (Some k))))
  = Z.of_nat (List.length pf) - k
  /\ Z.of_nat (List.length (snd (reduce_front crowding pf (Some k)))) = k.
Proof.
  intros Hk. unfold reduce_front.
  destruct (Z.gtb_spec (Z.of_nat (List.length pf)) k); [|lia].
  destruct (reduce_loop crowding (Z.to_nat (Z.of_nat (List.length pf) - k)) pf)
    as [passes out] eqn:E.
  apply reduce_loop_spec in E; [|lia]. simpl. lia.
Qed.

(** C1 (as amended): on a de-duplicated non-dominated set of [m] rows with
    [0 <= n_pts_keep < m] the reduction makes exactly [m - n_pts_keep] passes;
    each pass recomputes the crowding distances of the rows it starts from and
    takes out exactly one row, a row of LOWEST crowding distance (position 0
    of the ascending argsort), and exactly [n_pts_keep] rows are left. *)
Theorem reduce_front_drops_lowest (crowding : front -> nat -> score)
  (pf : front) (n_pts_keep : Z) (passes : list front) (out : front) :
  0 <= n_pts_keep < Z.of_nat (List.length pf) ->
  reduce_front crowding pf (Some n_pts_keep) = (passes, out) ->
  Z.of_nat (List.length passes) = Z.of_nat (List.length pf) - n_pts_keep
  /\ Z.of_nat (List.length out) = n_pts_keep
  /\ List.nth 0 (passes ++ [out]) [] = pf
  /\ forall j, (j < List.length passes)%nat ->
       drops_lowest crowding (List.nth j (passes ++ [out]) [])
                             (List.nth (S j) (passes ++ [out]) []).
Proof.
  intros Hk E. unfold reduce_front in E.
  destruct (Z.gtb_spec (Z.of_nat (List.length pf)) n_pts_keep); [|lia].
  apply reduce_loop_spec in E; [|lia].
  destruct E as [H1 [H2 [H3 H4]]].
  repeat split; try lia; auto.
  rewrite H1. exact H4.
Qed.

Lemma reduce_front_drops_lowest_witness :
  let pf := [[0; 10]; [1; 8]; [5; 3]; [10; 0]] in
  let mid := [[5; 3]; [0; 10]; [10; 0]] in
  let out := [[0; 10]; [10; 0]] in
  Z.of_nat (List.length [pf; mid]) = Z.of_nat (List.length pf) - 2
  /\ Z.of_nat (List.length out) = 2
  /\ List.nth 0 ([pf; mid] ++ [out]) [] = pf
  /\ forall j, (j < List.length [pf; mid])%nat ->
       drops_lowest pymoo_crowding (List.nth j ([pf; mid] ++ [out]) [])
                                   (List.nth (S j) ([pf; mid] ++ [out]) []).
Proof.
  apply (reduce_front_drops_lowest pymoo_crowding
           [[0; 10]; [1; 8]; [5; 3]; [10; 0]] 2).
  - simpl. lia.
  - vm_compute. reflexivity.
Defined.

(** C1, counterexample: on four rows with limit 3 the one pass takes out row 1,
    whose crowding distance 0.6 is the lowest, and keeps row 2, whose distance
    0.85 is the second-lowest. *)
Lemma reduce_front_keeps_second_lowest :
  let pf := [[0; 10]; [1; 8]; [5; 3]; [10; 0]] in
  let out := snd (reduce_front pymoo_crowding pf (Some 3)) in
  crowding_order pymoo_crowding pf = [1; 2; 0; 3]%nat
  /\ score_ltb (pymoo_crowding pf 1) (pymoo_crowding pf 2) = true
  /\ score_ltb (pymoo_crowding pf 2) (pymoo_crowding pf 0) = true
  /\ score_ltb (pymoo_crowding pf 2) (pymoo_crowding pf 3) = true
  /\ fst (reduce_front pymoo_crowding pf (Some 3)) = [pf]
  /\ In (List.nth 2 pf []) out
  /\ ~ In (List.nth 1 pf []) out.
Proof.
  assert (E : reduce_front pymoo_crowding [[0; 10]; [1; 8]; [5; 3]; [10; 0]]
                (Some 3)
              = ([[[0; 10]; [1; 8]; [5; 3]; [10; 0]]], [[5; 3]; [0; 10]; [10; 0]]))
    by (vm_compute; reflexivity).
  cbv zeta. rewrite E.
  repeat split; try (vm_compute; reflexivity).
  - simpl. auto.
  - simpl. intros [H|[H|[H|[]]]]; discriminate.
Qed.

(** ** The steps of [_calc_pareto_front] *)

Lemma add_events_nil (w : World) : add_events w [] = w.
Proof. destruct w. unfold add_events. simpl. now rewrite List.app_nil_r. Qed.

Lemma exhaustive_front_run (self : Problem) (n : Z) (w : World) :
  exhaustive_front self n w
  = (Ok (non_dominated_front
           (List.map (evaluate self) (RepairedExhaustiveSampling_do self n))),
     add_events w
       [Sample n; Evaluate (List.length (RepairedExhaustiveSampling_do self n))]).
Proof.
  unfold exhaustive_front, bind, emit, ret, add_events. simpl.
  now rewrite <- List.app_assoc.
Qed.

Lemma submit_all_run (self : Problem) (pop_size n_gen n_repeat : Z)
  (runs : list nat) (w : World) :
  submit_all self pop_size n_gen n_repeat runs w
  = (Ok (List.map (fun i => minimize self pop_size n_gen i) runs),
     add_events w (List.map Submit runs)).
Proof.
  revert w. induction runs as [|i runs IH]; intros w; simpl.
  - unfold ret. now rewrite add_events_nil.
  - unfold bind, emit at 1. rewrite IH. unfold ret, add_events. simpl.
    now rewrite <- List.app_assoc.
Qed.

Lemma nsga2_front_run (self : Problem) (pop_size n_gen n_repeat : Z) (w : World) :
  nsga2_front self pop_size n_gen n_repeat w
  = (merge_runs None (outcomes self pop_size n_gen n_repeat),
     add_events w (nsga2_events n_repeat)).
Proof.
  unfold nsga2_front, bind. rewrite submit_all_run.
  unfold emit, lift, add_events, nsga2_events, outcomes. simpl.
  now rewrite <- List.app_assoc.
Qed.

Section CallFacts.

Variable home : string.
Variable crowding : front -> nat -> score.

(** A cache hit (lines 54-57). *)
Lemma calc_pareto_front_hit (self : Problem) (pop_size n_gen n_repeat : Z)
  (keep : option Z) (w : World) (path : string) (cached : front) :
  _pf_cache_path home self = Ok path ->
  files w !! path = Some cached ->
  _calc_pareto_front home crowding self pop_size n_gen n_repeat keep w
  = (Ok cached, add_events w [Load path]).
Proof.
  intros Hp Hc.
  unfold _calc_pareto_front, bind, lift, os_path_exists, pickle_load.
  rewrite Hp. cbv beta iota. rewrite Hc.
  rewrite bool_decide_eq_true_2 by eauto. cbv beta iota. now rewrite Hc.
Qed.

(** A cache miss (lines 59-106). *)
Lemma calc_pareto_front_miss (self : Problem) (pop_size n_gen n_repeat : Z)
  (keep : option Z) (w : World) (path : string) :
  _pf_cache_path home self = Ok path ->
  files w !! path = None ->
  _calc_pareto_front home crowding self pop_size n_gen n_repeat keep w
  = match approximate_front self pop_size n_gen n_repeat w with
    | (Ok (Some raw), w1) =>
        let pf := finalize_front crowding raw keep in
        (Ok pf, {| files := <[path := pf]> (files w1);
                   log := log w1 ++ [Dump path] |})
    | (Ok None, w1) => (Raise AxisError, w1)
    | (Raise e, w1) => (Raise e, w1)
    end.
Proof.
  intros Hp Hc. unfold _calc_pareto_front, bind, lift, os_path_exists.
  rewrite Hp. cbv beta iota. rewrite Hc.
  rewrite bool_decide_eq_false_2 by (intros [? ?]; discriminate).
  destruct (approximate_front self pop_size n_gen n_repeat w) as [[[raw|]|e] w1];
    reflexivity.
Qed.

(** Lines 59-92 leave the files alone. *)
Lemma approximate_front_files (self : Problem) (pop_size n_gen n_repeat : Z)
  (w : World) :
  files (snd (approximate_front self pop_size n_gen n_repeat w)) = files w.
Proof.
  unfold approximate_front.
  destruct (design_space_size (vars self) 1) as [n|];
    [destruct (n <? pop_size * n_gen * n_repeat)|];
    unfold bind; rewrite ?exhaustive_front_run, ?nsga2_front_run; reflexivity.
Qed.

(** When [repr(self)] raises, nothing else happens. *)
Lemma calc_pareto_front_repr_raises (self : Problem) (pop_size n_gen n_repeat : Z)
  (keep : option Z) (w : World) (e : exn) :
  repr self = Raise e ->
  _calc_pareto_front home crowding self pop_size n_gen n_repeat keep w
  = (Raise e, w).
Proof.
  intros H. unfold _calc_pareto_front, bind, lift, _pf_cache_path.
  now rewrite H.
Qed.

End CallFacts.

Example curve_cache_path :
  _pf_cache_path "/home/user" curve_problem
  = Ok "/home/user/.arch_opt_pf_cache/curve.pkl"%string.
Proof. vm_compute. reflexivity. Qed.

Example curve_front :
  _calc_pareto_front "/home/user" pymoo_crowding curve_problem 200 20 3 (Some 3)
    empty_world
  = (Ok [[5; 3]; [0; 10]; [10; 0]],
     {| files := {[ "/home/user/.arch_opt_pf_cache/curve.pkl"%string
                    := [[5; 3]; [0; 10]; [10; 0]] ]};
        log := [Submit 0; Submit 1; Submit 2; WaitAll;
                Dump "/home/user/.arch_opt_pf_cache/curve.pkl"] |}).
Proof. vm_compute. reflexivity. Qed.

Example grid_front :
  fst (_calc_pareto_front "/home/user" pymoo_crowding grid_problem 200 20 10
         (Some 100) empty_world)
  = Ok [[0; 2]; [1; 1]; [2; 0]].
Proof. vm_compute. reflexivity. Qed.

(** ** The size of the returned front *)

(** C6: on a cache miss the returned front is the de-duplicated set itself,
    with no pass made, when [n_pts_keep] is [None] or the set has at most
    [n_pts_keep] rows; otherwise (for a limit that is not negative) it has
    exactly [n_pts_keep] rows. *)
Theorem returned_front_size (home : string) (crowding : front -> nat -> score)
  (self : Problem) (pop_size n_gen n_repeat : Z) (n_pts_keep : option Z)
  (w w' : World) (path : string) (pf : front) :
  _pf_cache_path home self = Ok path ->
  files w !! path = None ->
  _calc_pareto_front home crowding self pop_size n_gen n_repeat n_pts_keep w
  = (Ok pf, w') ->
  exists (raw : front) (w1 : World),
    approximate_front self pop_size n_gen n_repeat w = (Ok (Some raw), w1)
    /\ pf = snd (reduce_front crowding (np_unique raw) n_pts_keep)
    /\ (n_pts_keep = None
        \/ (exists k, n_pts_keep = Some k
                      /\ Z.of_nat (List.length (np_unique raw)) <= k) ->
        fst (reduce_front crowding (np_unique raw) n_pts_keep) = []
        /\ pf = np_unique raw)
    /\ (forall k, n_pts_keep = Some k ->
                  0 <= k < Z.of_nat (List.length (np_unique raw)) ->
                  Z.of_nat (List.length pf) = k).
Proof.
  intros Hp Hc E. rewrite (calc_pareto_front_miss _ _ _ _ _ _ _ _ _ Hp Hc) in E.
  destruct (approximate_front self pop_size n_gen n_repeat w)
    as [[[raw|]|e] w1]; try discriminate.
  exists raw, w1. simpl in E. inversion E as [[Hpf Hw]]. clear E.
  unfold finalize_front. split; [reflexivity|]. split; [reflexivity|]. split.
  - intros Hin.
    rewrite (reduce_front_within crowding (np_unique raw) n_pts_keep); auto.
    destruct Hin as [->|[k [-> Hk]]]; auto.
  - intros k -> Hk. apply (reduce_front_length crowding _ _ Hk).
Qed.

Lemma returned_front_size_witness :
  exists (raw : front) (w1 : World),
    approximate_front curve_problem 200 20 3 empty_world = (Ok (Some raw), w1)
    /\ [[5; 3]; [0; 10]; [10; 0]]
       = snd (reduce_front pymoo_crowding (np_unique raw) (Some 3))
    /\ (Some 3 = None
        \/ (exists k, Some 3 = Some k
                      /\ Z.of_nat (List.length (np_unique raw)) <= k) ->
        fst (reduce_front pymoo_crowding (np_unique raw) (Some 3)) = []
        /\ [[5; 3]; [0; 10]; [10; 0]] = np_unique raw)
    /\ (forall k, Some 3 = Some k ->
                  0 <= k < Z.of_nat (List.length (np_unique raw)) ->
                  Z.of_nat (List.length [[5; 3]; [0; 10]; [10; 0]]) = k).
Proof.
  apply (returned_front_size "/home/user" pymoo_crowding curve_problem 200 20 3
           (Some 3) empty_world
           {| files := {[ "/home/user/.arch_opt_pf_cache/curve.pkl"%string
                          := [[5; 3]; [0; 10]; [10; 0]] ]};
              log := [Submit 0; Submit 1; Submit 2; WaitAll;
                      Dump "/home/user/.arch_opt_pf_cache/curve.pkl"] |}
           "/home/user/.arch_opt_pf_cache/curve.pkl");
    vm_compute; reflexivity.
Defined.

(** ** The invariant of the returned front *)

Lemma mutually_non_dominated_check (F : front) :
  List.forallb (fun f => negb (is_dominated F f)) F = true ->
  mutually_non_dominated F.
Proof.
  intros H f g Hf Hg.
  apply (proj1 (List.forallb_forall _ _) H) in Hf.
  apply negb_true_iff in Hf.
  now apply (proj1 (is_dominated_false F f)).
Qed.



Lemma finalize_front_incl (crowding : front -> nat -> score) (raw : front)
  (keep : option Z) :
  List.incl (finalize_front crowding raw keep) raw.
Proof.
  unfold finalize_front.
  eapply List.incl_tran; [apply reduce_front_incl|apply np_unique_incl].
Qed.






(** ** The cache *)

(** C4: when a file exists at the cache path the call returns its content
    whatever the arguments, loads it and does nothing else (no sampling, no
    evaluation, no run) and leaves the files as they are; so after a call that
    returned a front, a second call returns the same front for any arguments,
    as a pure cache read. *)
Theorem cache_hit_returns_cached (home : string)
  (crowding : front -> nat -> score) (self : Problem) (path : string) :
  _pf_cache_path home self = Ok path ->
  (forall (w : World) (cached : front) (pop_size n_gen n_repeat : Z)
          (n_pts_keep : option Z),
      files w !! path = Some cached ->
      _calc_pareto_front home crowding self pop_size n_gen n_repeat n_pts_keep w
      = (Ok cached, {| files := files w; log := log w ++ [Load path] |}))
  /\ (forall (w w1 : World) (pf : front) (pop_size n_gen n_repeat : Z)
             (n_pts_keep : option Z) (pop_size' n_gen' n_repeat' : Z)
             (n_pts_keep' : option Z),
        _calc_pareto_front home crowding self pop_size n_gen n_repeat n_pts_keep w
        = (Ok pf, w1) ->
        _calc_pareto_front home crowding self pop_size' n_gen' n_repeat'
          n_pts_keep' w1
        = (Ok pf, {| files := files w1; log := log w1 ++ [Load path] |})).
Proof.
  intros Hp. split.
  - intros w cached pop_size n_gen n_repeat keep Hc.
    apply (calc_pareto_front_hit _ _ _ _ _ _ _ _ _ _ Hp Hc).
  - intros w w1 pf pop_size n_gen n_repeat keep pop_size' n_gen' n_repeat' keep' E.
    apply (calc_pareto_front_hit home crowding self _ _ _ _ w1 path pf Hp).
    destruct (files w !! path) as [cached|] eqn:Hc.
    + rewrite (calc_pareto_front_hit _ _ _ _ _ _ _ _ _ _ Hp Hc) in E.
      inversion E; subst. exact Hc.
    + rewrite (calc_pareto_front_miss _ _ _ _ _ _ _ _ _ Hp Hc) in E.
      destruct (approximate_front self pop_size n_gen n_repeat w)
        as [[[raw|]|e] w0]; try discriminate.
      inversion E; subst. simpl. apply lookup_insert_eq.
Qed.

Lemma cache_hit_returns_cached_witness :
  (forall (w : World) (cached : front) (pop_size n_gen n_repeat : Z)
          (n_pts_keep : option Z),
      files w !! "/home/user/.arch_opt_pf_cache/grid__.pkl"%string = Some cached ->
      _calc_pareto_front "/home/user" pymoo_crowding grid_problem pop_size n_gen
        n_repeat n_pts_keep w
      = (Ok cached,
         {| files := files w;
            log := log w ++ [Load "/home/user/.arch_opt_pf_cache/grid__.pkl"] |}))
  /\ (forall (w w1 : World) (pf : front) (pop_size n_gen n_repeat : Z)
             (n_pts_keep : option Z) (pop_size' n_gen' n_repeat' : Z)
             (n_pts_keep' : option Z),
        _calc_pareto_front "/home/user" pymoo_crowding grid_problem pop_size n_gen
          n_repeat n_pts_keep w
        = (Ok pf, w1) ->
        _calc_pareto_front "/home/user" pymoo_crowding grid_problem pop_size'
          n_gen' n_repeat' n_pts_keep' w1
        = (Ok pf,
           {| files := files w1;
              log := log w1 ++ [Load "/home/user/.arch_opt_pf_cache/grid__.pkl"] |})).
Proof.
  apply (cache_hit_returns_cached "/home/user" pymoo_crowding grid_problem).
  vm_compute. reflexivity.
Defined.

Example second_call_reads_cache :
  let first := _calc_pareto_front "/home/user" pymoo_crowding grid_problem
                 200 20 10 (Some 100) empty_world in
  _calc_pareto_front "/home/user" pymoo_crowding grid_problem 5 1 1 (Some 1)
    (snd first)
  = (Ok [[0; 2]; [1; 1]; [2; 0]],
     {| files := files (snd first);
        log := [Sample 9; Evaluate 9;
                Dump "/home/user/.arch_opt_pf_cache/grid__.pkl";
                Load "/home/user/.arch_opt_pf_cache/grid__.pkl"] |}).
Proof. vm_compute. reflexivity. Qed.

(** ** A run that raises *)

(** The loop of lines 85-92 re-raises what the first failed run raised. *)
Lemma merge_runs_first_raise (futures : list (result front)) :
  forall (acc : option front) (i : nat) (e : exn),
    List.nth_error futures i = Some (Raise e) ->
    exists (j : nat) (e' : exn),
      (j <= i)%nat
      /\ List.nth_error futures j = Some (Raise e')
      /\ (forall j', (j' < j)%nat ->
                     exists F, List.nth_error futures j' = Some (Ok F))
      /\ merge_runs acc futures = Raise e'.
Proof.
  induction futures as [|[F|e0] futures IH]; intros acc i e H.
  - destruct i; discriminate.
  - destruct i as [|i]; [discriminate|]. simpl in H.
    destruct (IH (Some (match acc with
                        | None => F
                        | Some pf0 => non_dominated_front (pf0 ++ F)
                        end)) i e H) as [j [e' [Hj [Hn [Hb Hm]]]]].
    exists (S j), e'. repeat split; auto; [lia|].
    intros [|j'] Hj'; [exists F; reflexivity|]. apply Hb. lia.
  - exists O, e0. repeat split; auto; [lia|]. intros j' Hj'. lia.
Qed.

Lemma nth_error_outcomes (self : Problem) (pop_size n_gen n_repeat : Z) (i : nat) :
  (i < Z.to_nat n_repeat)%nat ->
  List.nth_error (outcomes self pop_size n_gen n_repeat) i
  = Some (minimize self pop_size n_gen i).
Proof.
  intros Hi. unfold outcomes. apply List.map_nth_error.
  rewrite (List.nth_error_nth' _ O) by (rewrite List.length_seq; lia).
  now rewrite List.seq_nth.
Qed.

Lemma approximate_front_stochastic (self : Problem) (pop_size n_gen n_repeat : Z)
  (w : World) :
  stochastic_path self pop_size n_gen n_repeat ->
  approximate_front self pop_size n_gen n_repeat w
  = nsga2_front self pop_size n_gen n_repeat w.
Proof.
  unfold stochastic_path, approximate_front.
  destruct (design_space_size (vars self) 1) as [n|]; auto.
  intros H. destruct (Z.ltb_spec n (pop_size * n_gen * n_repeat)); auto. lia.
Qed.

(** C7: on the stochastic path, when some run raises, every run has been
    submitted and waited for, the call raises what the first failed run (in
    submission order) raised, returns no front, and leaves the files as they
    were: nothing is written to the cache. *)
Theorem failed_run_propagates (home : string) (crowding : front -> nat -> score)
  (self : Problem) (pop_size n_gen n_repeat : Z) (n_pts_keep : option Z)
  (w : World) (path : string) (i : nat) (e : exn) :
  _pf_cache_path home self = Ok path ->
  files w !! path = None ->
  stochastic_path self pop_size n_gen n_repeat ->
  (i < Z.to_nat n_repeat)%nat ->
  minimize self pop_size n_gen i = Raise e ->
  exists (j : nat) (e' : exn),
    (j <= i)%nat
    /\ minimize self pop_size n_gen j = Raise e'
    /\ (forall j', (j' < j)%nat -> exists F, minimize self pop_size n_gen j' = Ok F)
    /\ _calc_pareto_front home crowding self pop_size n_gen n_repeat n_pts_keep w
       = (Raise e',
          {| files := files w;
             log := log w
                    ++ List.map Submit (List.seq 0 (Z.to_nat n_repeat))
                    ++ [WaitAll] |}).
Proof.
  intros Hp Hc Hs Hi He.
  pose proof (nth_error_outcomes self pop_size n_gen n_repeat i Hi) as Hn.
  rewrite He in Hn.
  destruct (merge_runs_first_raise _ None i e Hn) as [j [e' [Hj [Hn' [Hb Hm]]]]].
  rewrite nth_error_outcomes in Hn' by lia. injection Hn' as Hje.
  exists j, e'.
  split; [exact Hj|]. split; [exact Hje|]. split.
  - intros j' Hj'. destruct (Hb j' Hj') as [F HF].
    rewrite nth_error_outcomes in HF by lia. injection HF as HF. eauto.
  - rewrite (calc_pareto_front_miss _ _ _ _ _ _ _ _ _ Hp Hc).
    rewrite (approximate_front_stochastic _ _ _ _ _ Hs), nsga2_front_run, Hm.
    reflexivity.
Qed.

Lemma failed_run_propagates_witness :
  exists (j : nat) (e' : exn),
    (j <= 1)%nat
    /\ minimize failing_problem 200 20 j = Raise e'
    /\ (forall j', (j' < j)%nat -> exists F, minimize failing_problem 200 20 j' = Ok F)
    /\ _calc_pareto_front "/home/user" pymoo_crowding failing_problem 200 20 3
         (Some 100) empty_world
       = (Raise e',
          {| files := files empty_world;
             log := log empty_world
                    ++ List.map Submit (List.seq 0 (Z.to_nat 3))
                    ++ [WaitAll] |}).
Proof.
  apply (failed_run_propagates "/home/user" pymoo_crowding failing_problem 200 20 3
           (Some 100) empty_world
           "/home/user/.arch_opt_pf_cache/failing__.pkl" 1 (RunRaised 1)).
  - vm_compute. reflexivity.
  - vm_compute. reflexivity.
  - exact I.
  - vm_compute. lia.
  - reflexivity.
Defined.

Example failed_run_leaves_cache :
  _calc_pareto_front "/home/user" pymoo_crowding failing_problem 200 20 3
    (Some 100) empty_world
  = (Raise (RunRaised 1),
     {| files := ∅; log := [Submit 0; Submit 1; Submit 2; WaitAll] |}).
Proof. vm_compute. reflexivity. Qed.

(** ** The order of the returned rows *)

Lemma finalize_front_ext (crowding : front -> nat -> score) (raw raw' : front)
  (keep : option Z) :
  (forall f, In f raw <-> In f raw') ->
  finalize_front crowding raw keep = finalize_front crowding raw' keep.
Proof.
  intros H. unfold finalize_front. now rewrite (np_unique_ext raw raw' H).
Qed.

(** C10 (as amended): on a cache miss the rows of the returned front are
    pairwise distinct, and the front is a function of the set of rows found
    (whatever their order and multiplicity before line 95); the rows are in
    ascending lexicographic order when no pass of the reduction is made, that
    is when [n_pts_keep] is [None] or the de-duplicated set has at most
    [n_pts_keep] rows. *)
Theorem returned_front_order (home : string) (crowding : front -> nat -> score)
  (self : Problem) (pop_size n_gen n_repeat : Z) (n_pts_keep : option Z)
  (w w' : World) (path : string) (pf : front) :
  _pf_cache_path home self = Ok path ->
  files w !! path = None ->
  _calc_pareto_front home crowding self pop_size n_gen n_repeat n_pts_keep w
  = (Ok pf, w') ->
  List.NoDup pf
  /\ exists (raw : front) (w1 : World),
       approximate_front self pop_size n_gen n_repeat w = (Ok (Some raw), w1)
       /\ (forall raw', (forall f, In f raw <-> In f raw') ->
                        finalize_front crowding raw' n_pts_keep = pf)
       /\ (n_pts_keep = None
           \/ (exists k, n_pts_keep = Some k
                         /\ Z.of_nat (List.length (np_unique raw)) <= k) ->
           StronglySorted row_lt pf).
Proof.
  intros Hp Hc E. rewrite (calc_pareto_front_miss _ _ _ _ _ _ _ _ _ Hp Hc) in E.
  destruct (approximate_front self pop_size n_gen n_repeat w)
    as [[[raw|]|e] w1]; try discriminate.
  simpl in E. injection E as Hpf Hw. subst pf. split.
  - apply reduce_front_NoDup, np_unique_NoDup.
  - exists raw, w1. split; [reflexivity|]. split.
    + intros raw' H. symmetry. now apply finalize_front_ext.
    + intros H. unfold finalize_front.
      rewrite (reduce_front_within crowding (np_unique raw) n_pts_keep).
      * apply np_unique_sorted.
      * destruct H as [->|[k [-> Hk]]]; auto.
Qed.

Lemma returned_front_order_witness :
  List.NoDup [[0; 2]; [1; 1]; [2; 0]]
  /\ exists (raw : front) (w1 : World),
       approximate_front grid_problem 200 20 10 empty_world = (Ok (Some raw), w1)
       /\ (forall raw', (forall f, In f raw <-> In f raw') ->
                        finalize_front pymoo_crowding raw' (Some 100)
                        = [[0; 2]; [1; 1]; [2; 0]])
       /\ (Some 100 = None
           \/ (exists k, Some 100 = Some k
                         /\ Z.of_nat (List.length (np_unique raw)) <= k) ->
           StronglySorted row_lt [[0; 2]; [1; 1]; [2; 0]]).
Proof.
  apply (returned_front_order "/home/user" pymoo_crowding grid_problem 200 20 10
           (Some 100) empty_world
           {| files := {[ "/home/user/.arch_opt_pf_cache/grid__.pkl"%string
                          := [[0; 2]; [1; 1]; [2; 0]] ]};
              log := [Sample 9; Evaluate 9;
                      Dump "/home/user/.arch_opt_pf_cache/grid__.pkl"] |}
           "/home/user/.arch_opt_pf_cache/grid__.pkl");
    vm_compute; reflexivity.
Defined.

(** C10, counterexample: a cache miss with three runs and [n_pts_keep = 3].
    The four rows found are reduced to three, which come back in the order of
    their crowding distances: [5; 3] before [0; 10], not in lexicographic
    order. *)
Lemma reduced_front_not_sorted :
  files empty_world !! "/home/user/.arch_opt_pf_cache/curve.pkl"%string = None
  /\ _pf_cache_path "/home/user" curve_problem
     = Ok "/home/user/.arch_opt_pf_cache/curve.pkl"%string
  /\ fst (_calc_pareto_front "/home/user" pymoo_crowding curve_problem 200 20 3
            (Some 3) empty_world)
     = Ok [[5; 3]; [0; 10]; [10; 0]]
  /\ ~ StronglySorted row_lt [[5; 3]; [0; 10]; [10; 0]].
Proof.
  split; [apply lookup_empty|].
  split; [vm_compute; reflexivity|].
  split; [vm_compute; reflexivity|].
  intros H. inversion H as [|? ? _ Hall]; subst.
  inversion Hall as [|? ? Hlt _]; subst. discriminate.
Qed.

(** ** Exhaustive evaluation or NSGA2 runs *)

Lemma skipn_length_app {A} (l l' : list A) :
  List.skipn (List.length l) (l ++ l') = l'.
Proof. induction l as [|a l IH]; simpl; auto. Qed.

Lemma design_space_size_discrete (vs : list Var) :
  List.forallb is_discrete vs = true ->
  forall n, design_space_size vs n = Some (n * combinatorial_size vs).
Proof.
  induction vs as [|[xl xu|xl xu] vs IH]; simpl; intros H n.
  - f_equal. lia.
  - discriminate.
  - rewrite (IH H). f_equal. lia.
Qed.

Lemma design_space_size_real (vs : list Var) :
  List.forallb is_discrete vs = false ->
  forall n, design_space_size vs n = None.
Proof.
  induction vs as [|[xl xu|xl xu] vs IH]; simpl; intros H n; auto.
  discriminate.
Qed.

Lemma in_exhaustive_sampling (self : Problem) (n : Z) (x : list Z) :
  In x (RepairedExhaustiveSampling_do self n) <-> valid_point self x.
Proof.
  unfold RepairedExhaustiveSampling_do, valid_point.
  rewrite List.nodup_In, List.in_map_iff.
  split; intros [g H]; exists g; intuition.
Qed.

Lemma nsga2_front_events (self : Problem) (pop_size n_gen n_repeat : Z) (w : World) :
  events_of (nsga2_front self pop_size n_gen n_repeat) w = nsga2_events n_repeat.
Proof.
  unfold events_of. rewrite nsga2_front_run. simpl. apply skipn_length_app.
Qed.

Lemma nsga2_events_no_sample (n_repeat n : Z) : ~ In (Sample n) (nsga2_events n_repeat).
Proof.
  unfold nsga2_events. intros H. apply List.in_app_or in H as [H|[H|[]]].
  - apply List.in_map_iff in H as [i [H _]]. discriminate.
  - discriminate.
Qed.

(** C2: when every variable is discrete the size computed by lines 60-66 is
    the product of [xu - xl + 1] over the variables, and lines 69-92 sample
    exhaustively if and only if that size is below
    [pop_size * n_gen * n_repeat]; the front before the reduction is then the
    non-dominated part of the evaluations of every valid point: a row is in it
    exactly when it is the evaluation of a valid point and the evaluation of no
    valid point dominates it.  At or above the budget, and whenever a variable
    is continuous, the NSGA2 runs are made instead and nothing is sampled.
    ([_calc_pareto_front] reaches these lines on every cache miss.) *)
Theorem exhaustive_iff_small (self : Problem) (pop_size n_gen n_repeat : Z)
  (w : World) :
  let n := combinatorial_size (vars self) in
  let budget := pop_size * n_gen * n_repeat in
  let run := approximate_front self pop_size n_gen n_repeat in
  (List.forallb is_discrete (vars self) = true ->
   design_space_size (vars self) 1 = Some n
   /\ ((exists n', In (Sample n') (events_of run w)) <-> n < budget)
   /\ (n < budget ->
       let pop := RepairedExhaustiveSampling_do self n in
       let pf := non_dominated_front (List.map (evaluate self) pop) in
       run w = (Ok (Some pf), add_events w [Sample n; Evaluate (List.length pop)])
       /\ forall f,
            In f pf <->
            (exists x, valid_point self x /\ f = evaluate self x)
            /\ (forall y, valid_point self y ->
                          dominates (evaluate self y) f = false))
   /\ (budget <= n -> run w = nsga2_front self pop_size n_gen n_repeat w))
  /\ (List.forallb is_discrete (vars self) = false ->
      design_space_size (vars self) 1 = None
      /\ run w = nsga2_front self pop_size n_gen n_repeat w
      /\ ~ exists n', In (Sample n') (events_of run w)).
Proof.
  cbv zeta. split; intros Hd.
  - pose proof (design_space_size_discrete _ Hd 1) as Hn.
    rewrite Z.mul_1_l in Hn.
    assert (Hsmall : combinatorial_size (vars self) < pop_size * n_gen * n_repeat ->
      approximate_front self pop_size n_gen n_repeat w
      = (Ok (Some (non_dominated_front
                     (List.map (evaluate self)
                        (RepairedExhaustiveSampling_do self
                           (combinatorial_size (vars self)))))),
         add_events w
           [Sample (combinatorial_size (vars self));
            Evaluate (List.length
                        (RepairedExhaustiveSampling_do self
                           (combinatorial_size (vars self))))])).
    { intros Hlt. unfold approximate_front. rewrite Hn.
      rewrite (proj2 (Z.ltb_lt _ _) Hlt). unfold bind.
      now rewrite exhaustive_front_run. }
    assert (Hlarge : pop_size * n_gen * n_repeat <= combinatorial_size (vars self) ->
      approximate_front self pop_size n_gen n_repeat w
      = nsga2_front self pop_size n_gen n_repeat w).
    { intros Hge. apply approximate_front_stochastic.
      unfold stochastic_path. now rewrite Hn. }
    split; [exact Hn|]. split; [|split; [|exact Hlarge]].
    + split.
      * intros [n' Hin].
        destruct (Z.lt_ge_cases (combinatorial_size (vars self))
                    (pop_size * n_gen * n_repeat)) as [Hlt|Hge]; auto.
        exfalso. unfold events_of in Hin. rewrite (Hlarge Hge) in Hin.
        apply (nsga2_events_no_sample n_repeat n').
        now rewrite <- (nsga2_front_events self pop_size n_gen n_repeat w).
      * intros Hlt. exists (combinatorial_size (vars self)).
        unfold events_of. rewrite (Hsmall Hlt). simpl.
        rewrite skipn_length_app. now left.
    + intros Hlt. split; [exact (Hsmall Hlt)|].
      intros f. rewrite in_non_dominated_front, is_dominated_false.
      rewrite List.in_map_iff.
      split; intros [[x [Hx Hv]] Hnd]; split.
      * exists x. split; [now apply in_exhaustive_sampling in Hv|now symmetry].
      * intros y Hy. apply Hnd, List.in_map, in_exhaustive_sampling, Hy.
      * exists x. split; [now symmetry|now apply in_exhaustive_sampling].
      * intros g Hg. apply List.in_map_iff in Hg as [y [<- Hy]].
        apply Hnd. now apply in_exhaustive_sampling in Hy.
  - pose proof (design_space_size_real _ Hd 1) as Hn.
    assert (Hrun : approximate_front self pop_size n_gen n_repeat w
                   = nsga2_front self pop_size n_gen n_repeat w).
    { apply approximate_front_stochastic. unfold stochastic_path.
      now rewrite Hn. }
    split; [exact Hn|]. split; [exact Hrun|].
    intros [n' Hin]. unfold events_of in Hin. rewrite Hrun in Hin.
    apply (nsga2_events_no_sample n_repeat n').
    now rewrite <- (nsga2_front_events self pop_size n_gen n_repeat w).
Qed.

Lemma exhaustive_iff_small_witness :
  design_space_size (vars grid_problem) 1 = Some 9
  /\ (exists n', In (Sample n')
                   (events_of (approximate_front grid_problem 200 20 10) empty_world))
  /\ approximate_front grid_problem 200 20 10 empty_world
     = (Ok (Some [[0; 2]; [1; 1]; [2; 0]]),
        add_events empty_world [Sample 9; Evaluate 9]).
Proof.
  destruct (proj1 (exhaustive_iff_small grid_problem 200 20 10 empty_world) eq_refl)
    as [H1 [H2 [H3 _]]].
  split; [exact H1|]. split.
  - apply H2. vm_compute. reflexivity.
  - apply H3. vm_compute. reflexivity.
Defined.

Example continuous_variable_forces_runs :
  events_of (approximate_front curve_problem 200 20 3) empty_world
  = [Submit 0; Submit 1; Submit 2; WaitAll].
Proof. vm_compute. reflexivity. Qed.

(** ** Merging the fronts of the runs *)

Lemma Forall_firstn {A} (P : A -> Prop) (n : nat) (l : list A) :
  Forall P l -> Forall P (List.firstn n l).
Proof.
  intros H. revert n. induction H; intros [|n]; simpl; constructor; auto.
Qed.

Lemma Forall_perm {A} (P : A -> Prop) (l l' : list A) :
  Permutation l l' -> Forall P l -> Forall P l'.
Proof.
  intros HP H. apply List.Forall_forall. intros x Hx.
  apply (proj1 (List.Forall_forall P l) H).
  now apply (Permutation_in _ (Permutation_sym HP)).
Qed.

(** C5: on the stochastic path, when every run returns a front free of
    dominated rows, the running front after run [i] (in submission order) is
    the non-dominated filter of the concatenation of the fronts of runs
    [1..i], and the loop goes on from it; so the front after the last run is
    the one-shot filter of all fronts, and merging the runs in any other order
    gives the same rows (a permutation of them, the same array after line
    95). *)
Theorem merge_is_one_shot_filter (n_obj : nat) (fronts : list front) (i : nat) :
  Forall (is_matrix n_obj) fronts ->
  Forall mutually_non_dominated fronts ->
  (1 <= i <= List.length fronts)%nat ->
  merge_runs None (List.map Ok (List.firstn i fronts))
  = Ok (Some (non_dominated_front (List.concat (List.firstn i fronts))))
  /\ merge_runs None (List.map Ok fronts)
     = merge_runs
         (Some (non_dominated_front (List.concat (List.firstn i fronts))))
         (List.map Ok (List.skipn i fronts))
  /\ merge_runs None (List.map Ok fronts)
     = Ok (Some (non_dominated_front (List.concat fronts)))
  /\ forall fronts',
       Permutation fronts fronts' ->
       exists pf',
         merge_runs None (List.map Ok fronts') = Ok (Some pf')
         /\ Permutation pf' (non_dominated_front (List.concat fronts))
         /\ np_unique pf' = np_unique (non_dominated_front (List.concat fronts)).
Proof.
  intros HM HN Hi.
  assert (Hprefix :
    merge_runs None (List.map Ok (List.firstn i fronts))
    = Ok (Some (non_dominated_front (List.concat (List.firstn i fronts))))).
  { apply (merge_runs_all_ok n_obj); auto using Forall_firstn.
    destruct fronts as [|F fronts]; [simpl in Hi; lia|].
    destruct i; [lia|discriminate]. }
  assert (Hne : fronts <> []).
  { destruct fronts; [simpl in Hi; lia|discriminate]. }
  split; [exact Hprefix|]. split; [|split].
  - rewrite <- (List.firstn_skipn i fronts) at 1.
    rewrite List.map_app, merge_runs_app, Hprefix. reflexivity.
  - now apply (merge_runs_all_ok n_obj).
  - intros fronts' HP.
    exists (non_dominated_front (List.concat fronts')).
    assert (HP' : Permutation (non_dominated_front (List.concat fronts'))
                              (non_dominated_front (List.concat fronts))).
    { apply non_dominated_front_perm, concat_perm, Permutation_sym, HP. }
    split; [|split; [exact HP'|]].
    + apply (merge_runs_all_ok n_obj); eauto using Forall_perm.
      intros ->. apply Permutation_sym, Permutation_nil in HP. auto.
    + apply np_unique_ext. intros f.
      split; apply Permutation_in; auto using Permutation_sym.
Qed.

Lemma merge_is_one_shot_filter_witness :
  let fronts := [[[10; 0]; [1; 8]]; [[5; 3]; [0; 10]; [2; 9]]; [[0; 10]; [10; 0]]] in
  merge_runs None (List.map Ok (List.firstn 2 fronts))
  = Ok (Some (non_dominated_front (List.concat (List.firstn 2 fronts))))
  /\ merge_runs None (List.map Ok fronts)
     = merge_runs
         (Some (non_dominated_front (List.concat (List.firstn 2 fronts))))
         (List.map Ok (List.skipn 2 fronts))
  /\ merge_runs None (List.map Ok fronts)
     = Ok (Some (non_dominated_front (List.concat fronts)))
  /\ forall fronts',
       Permutation fronts fronts' ->
       exists pf',
         merge_runs None (List.map Ok fronts') = Ok (Some pf')
         /\ Permutation pf' (non_dominated_front (List.concat fronts))
         /\ np_unique pf' = np_unique (non_dominated_front (List.concat fronts)).
Proof.
  apply (merge_is_one_shot_filter 2).
  - repeat constructor.
  - repeat constructor; apply mutually_non_dominated_check; reflexivity.
  - simpl. lia.
Defined.

Example merged_curve_fronts :
  merge_runs None (outcomes curve_problem 200 20 3)
  = Ok (Some [[10; 0]; [1; 8]; [5; 3]; [0; 10]; [0; 10]; [10; 0]]).
Proof. vm_compute. reflexivity. Qed.

(** ** The cache key and path *)

Example cache_key_short : cache_key "Grid()" = "grid__"%string.
Proof. vm_compute. reflexivity. Qed.

Example cache_key_twenty :
  cache_key "Exactly20Characters!" = "exactly20characters_"%string.
Proof. vm_compute. reflexivity. Qed.

Example cache_key_hashed :
  cache_key "Exactly21Characters!!" = "e2028c1eb440ef158b11"%string.
Proof. vm_compute. reflexivity. Qed.

Example cache_key_stripped :
  cache_key (String " " (String " " ("MOHierarchicalRosenbrock(n=3)"
                                       ++ String (ascii_of_nat 10) "")))
  = "e45d23e3801eb899f3e8"%string.
Proof. vm_compute. reflexivity. Qed.

Lemma re_sub_underscore_chars (s : list ascii) :
  Forall (fun c => is_key_or_underscore c = true) (re_sub_underscore s).
Proof.
  unfold re_sub_underscore. apply List.Forall_forall. intros c Hc.
  apply List.in_map_iff in Hc as [d [<- _]]. unfold is_key_or_underscore.
  destruct (is_key_char d) eqn:E; [now rewrite E|reflexivity].
Qed.

Lemma hex_digit_char (n : Z) :
  0 <= n < 16 -> is_key_or_underscore (MD5.hex_digit n) = true.
Proof.
  intros H.
  assert (Hall : List.forallb (fun k => is_key_or_underscore
                                          (MD5.hex_digit (Z.of_nat k)))
                              (List.seq 0 16) = true) by (vm_compute; reflexivity).
  rewrite <- (Z2Nat.id n) by lia.
  apply (proj1 (List.forallb_forall _ _) Hall). apply List.in_seq. lia.
Qed.

Lemma hexdigest_chars (msg : list Z) :
  Forall (fun c => is_key_or_underscore c = true)
         (list_ascii_of_string (MD5.hexdigest msg)).
Proof.
  unfold MD5.hexdigest. rewrite list_ascii_of_string_of_list_ascii.
  apply List.Forall_forall. intros c Hc.
  apply List.in_flat_map in Hc as [b [_ Hc]]. unfold MD5.hex_of_byte in Hc.
  destruct Hc as [<-|[<-|[]]]; apply hex_digit_char; apply Z.mod_pos_bound; lia.
Qed.

Lemma word_bytes_length (n : nat) (w : Z) : List.length (MD5.word_bytes n w) = n.
Proof. unfold MD5.word_bytes. now rewrite List.length_map, List.length_seq. Qed.

Lemma digest_length (msg : list Z) : List.length (MD5.digest msg) = 16%nat.
Proof.
  unfold MD5.digest.
  destruct (List.fold_left MD5.compress _ _) as [[[a b] c] d].
  now rewrite !List.length_app, !word_bytes_length.
Qed.

Lemma hexdigest_length (msg : list Z) :
  List.length (list_ascii_of_string (MD5.hexdigest msg)) = 32%nat.
Proof.
  unfold MD5.hexdigest. rewrite list_ascii_of_string_of_list_ascii.
  pose proof (digest_length msg) as H.
  induction (MD5.digest msg) as [|b l IH] in H |- *.
  - discriminate.
  - assert (Hflat : forall l : list Z,
               List.length (List.flat_map MD5.hex_of_byte l)
               = (2 * List.length l)%nat).
    { clear. induction l as [|x l IH]; simpl; [reflexivity|]. rewrite IH. lia. }
    rewrite Hflat, H. reflexivity.
Qed.

(** C8 (as amended): the cache path is a function of the problem's identity
    string, which is its repr unless the repr starts with [<], and then its
    class name: the path is [<home>/.arch_opt_pf_cache/<key>.pkl], where the
    key is the identity string normalised (lowercased, stripped, every
    character outside [[0-9a-z]] replaced by an underscore) when that has at
    most 20 characters, and else the first 20 characters of the MD5 hex digest
    of the normalised string; the key has only characters of [[0-9a-z_]] and at
    most 20 of them; two problems with the same identity string have the same
    path. *)
Theorem cache_path_of_identity (home : string) (self : Problem) (r : string) :
  repr self = Ok r ->
  let class_str := if startswith_lt r then class_name self else r in
  let key := list_ascii_of_string (cache_key class_str) in
  _pf_cache_path home self
  = Ok (home_dir home ++ "/.arch_opt_pf_cache/" ++ cache_key class_str ++ ".pkl")%string
  /\ ((List.length (normalised class_str) <= 20)%nat -> key = normalised class_str)
  /\ ((20 < List.length (normalised class_str))%nat ->
      key = List.firstn 20 (list_ascii_of_string
                              (MD5.hexdigest (encode_utf8 (normalised class_str))))
      /\ List.length key = 20%nat)
  /\ Forall (fun c => is_key_or_underscore c = true) key
  /\ (List.length key <= 20)%nat
  /\ forall (other : Problem) (r' : string),
       repr other = Ok r' ->
       (if startswith_lt r' then class_name other else r') = class_str ->
       _pf_cache_path home other = _pf_cache_path home self.
Proof.
  intros Hr. cbv zeta.
  set (class_str := if startswith_lt r then class_name self else r).
  assert (Hpath : _pf_cache_path home self
                  = Ok (cache_file home (cache_key class_str ++ ".pkl"))).
  { unfold _pf_cache_path. now rewrite Hr. }
  assert (Hshort : (List.length (normalised class_str) <= 20)%nat ->
                   list_ascii_of_string (cache_key class_str)
                   = normalised class_str).
  { intros H. unfold cache_key. fold (normalised class_str).
    rewrite (proj2 (Nat.ltb_ge _ _) H).
    apply list_ascii_of_string_of_list_ascii. }
  assert (Hlong : (20 < List.length (normalised class_str))%nat ->
                  list_ascii_of_string (cache_key class_str)
                  = List.firstn 20 (list_ascii_of_string
                      (MD5.hexdigest (encode_utf8 (normalised class_str))))).
  { intros H. unfold cache_key. fold (normalised class_str).
    rewrite (proj2 (Nat.ltb_lt _ _) H).
    apply list_ascii_of_string_of_list_ascii. }
  split; [exact Hpath|]. split; [exact Hshort|]. split; [|split; [|split]].
  - intros H. split; [exact (Hlong H)|]. rewrite (Hlong H).
    rewrite List.length_firstn, hexdigest_length. reflexivity.
  - destruct (Nat.le_gt_cases (List.length (normalised class_str)) 20) as [H|H].
    + rewrite (Hshort H). apply re_sub_underscore_chars.
    + rewrite (Hlong H). apply Forall_firstn, hexdigest_chars.
  - destruct (Nat.le_gt_cases (List.length (normalised class_str)) 20) as [H|H].
    + now rewrite (Hshort H).
    + rewrite (Hlong H), List.length_firstn. lia.
  - intros other r' Hr' Hsame. rewrite Hpath.
    unfold _pf_cache_path. rewrite Hr'. unfold class_str_of. now rewrite Hsame.
Qed.

Lemma cache_path_of_identity_witness :
  _pf_cache_path "/home/user/" grid_problem
  = Ok "/home/user/.arch_opt_pf_cache/grid__.pkl"%string
  /\ Forall (fun c => is_key_or_underscore c = true)
            (list_ascii_of_string (cache_key "Grid()"))
  /\ (List.length (list_ascii_of_string (cache_key "Grid()")) <= 20)%nat.
Proof.
  destruct (cache_path_of_identity "/home/user/" grid_problem "Grid()" eq_refl)
    as [H1 [_ [_ [H2 [H3 _]]]]].
  split; [exact H1|]. split; [exact H2|exact H3].
Defined.

(** C8, counterexample: a problem whose repr is the default
    [<demo.Curve object at 0x7f3a>] is cached under its class name, [curve],
    not under the key of its repr (the MD5 prefix of
    [_demo_curve_object_at_0x7f3a_]). *)
Lemma default_repr_key_is_class_name :
  repr curve_problem = Ok "<demo.Curve object at 0x7f3a>"%string
  /\ cache_key "<demo.Curve object at 0x7f3a>" = "5912f031f83d6fcf08f0"%string
  /\ _pf_cache_path "/home/user" curve_problem
     = Ok "/home/user/.arch_opt_pf_cache/curve.pkl"%string
  /\ _pf_cache_path "/home/user" curve_problem
     <> Ok (cache_file "/home/user"
              (cache_key "<demo.Curve object at 0x7f3a>" ++ ".pkl")).
Proof.
  split; [reflexivity|]. split; [vm_compute; reflexivity|].
  split; [vm_compute; reflexivity|].
  vm_compute. discriminate.
Qed.

(** ** Deriving the identity *)

(** C9 (as amended): when [repr(self)] raises, the call raises the same
    exception at once, before any computation or caching (the world is
    untouched); a repr of the default [<...>] form is not a failure: the class
    name takes its place and a cache path is derived for every repr. *)
Theorem identity_derivation (home : string) (crowding : front -> nat -> score)
  (self : Problem) :
  (forall e, repr self = Raise e ->
     _pf_cache_path home self = Raise e
     /\ forall (pop_size n_gen n_repeat : Z) (n_pts_keep : option Z) (w : World),
          _calc_pareto_front home crowding self pop_size n_gen n_repeat
            n_pts_keep w
          = (Raise e, w))
  /\ (forall r, repr self = Ok r ->
        exists path,
          _pf_cache_path home self = Ok path
          /\ (startswith_lt r = true ->
              path = cache_file home (cache_key (class_name self) ++ ".pkl"))).
Proof.
  split.
  - intros e He. split.
    + unfold _pf_cache_path. now rewrite He.
    + intros pop_size n_gen n_repeat keep w.
      now apply calc_pareto_front_repr_raises.
  - intros r Hr. unfold _pf_cache_path, class_str_of. rewrite Hr.
    eexists. split; [reflexivity|]. intros Hlt. now rewrite Hlt.
Qed.

Lemma identity_derivation_witness :
  _pf_cache_path "/home/user" unprintable_problem = Raise ReprRaised
  /\ _calc_pareto_front "/home/user" pymoo_crowding unprintable_problem 200 20 10
       (Some 100) empty_world
     = (Raise ReprRaised, empty_world).
Proof.
  destruct (proj1 (identity_derivation "/home/user" pymoo_crowding
                     unprintable_problem) ReprRaised eq_refl) as [H1 H2].
  split; [exact H1|apply H2].
Defined.

(** C9, counterexample: the repr of [curve_problem] is of the default [<...>]
    form, yet the identity is derived (from the class name), the fronts are
    computed and the result is cached. *)
Lemma default_repr_does_not_fail :
  repr curve_problem = Ok "<demo.Curve object at 0x7f3a>"%string
  /\ startswith_lt "<demo.Curve object at 0x7f3a>" = true
  /\ _pf_cache_path "/home/user" curve_problem
     = Ok "/home/user/.arch_opt_pf_cache/curve.pkl"%string
  /\ _calc_pareto_front "/home/user" pymoo_crowding curve_problem 200 20 3
       (Some 3) empty_world
     = (Ok [[5; 3]; [0; 10]; [10; 0]],
        {| files := {[ "/home/user/.arch_opt_pf_cache/curve.pkl"%string
                       := [[5; 3]; [0; 10]; [10; 0]] ]};
           log := [Submit 0; Submit 1; Submit 2; WaitAll;
                   Dump "/home/user/.arch_opt_pf_cache/curve.pkl"] |}).
Proof. repeat split; vm_compute; reflexivity. Qed.

(** ** Resetting the cache *)

Lemma approximate_front_log (self : Problem) (pop_size n_gen n_repeat : Z)
  (w : World) :
  exists es,
    log (snd (approximate_front self pop_size n_gen n_repeat w)) = log w ++ es
    /\ forall p, ~ In (Load p) es.
Proof.
  unfold approximate_front.
  destruct (design_space_size (vars self) 1) as [n|];
    [destruct (n <? pop_size * n_gen * n_repeat)|];
    unfold bind; rewrite ?exhaustive_front_run, ?nsga2_front_run; simpl;
    eexists; (split; [reflexivity|]); intros p H; unfold nsga2_events in *;
    rewrite ?List.in_app_iff in H; simpl in H;
    repeat destruct H as [H|H]; try discriminate; auto;
    apply List.in_map_iff in H as [i [H _]]; discriminate.
Qed.

(** A cache miss loads nothing. *)
Lemma calc_pareto_front_miss_no_load (home : string)
  (crowding : front -> nat -> score) (self : Problem)
  (pop_size n_gen n_repeat : Z) (keep : option Z) (w : World) (path : string) :
  _pf_cache_path home self = Ok path ->
  files w !! path = None ->
  forall p,
    ~ In (Load p)
         (events_of (_calc_pareto_front home crowding self pop_size n_gen
                       n_repeat keep) w).
Proof.
  intros Hp Hc p. unfold events_of.
  rewrite (calc_pareto_front_miss _ _ _ _ _ _ _ _ _ Hp Hc).
  destruct (approximate_front_log self pop_size n_gen n_repeat w)
    as [es [Hlog Hes]].
  destruct (approximate_front self pop_size n_gen n_repeat w)
    as [[[raw|]|e] w1]; simpl in *; rewrite Hlog;
    rewrite <- ?List.app_assoc, skipn_length_app; try apply Hes.
  intros H. apply List.in_app_or in H as [H|[H|[]]]; [|discriminate].
  now apply (Hes p).
Qed.

(** X1: [reset_pf_cache] removes the problem's cache file and no other, so the
    next call finds no file at the cache path and computes the front again
    instead of loading it. *)
Theorem reset_then_recompute (home : string) (crowding : front -> nat -> score)
  (self : Problem) (path : string) (w : World) :
  _pf_cache_path home self = Ok path ->
  fst (reset_pf_cache home self w) = Ok tt
  /\ files (snd (reset_pf_cache home self w)) !! path = None
  /\ (forall p, p <> path ->
        files (snd (reset_pf_cache home self w)) !! p = files w !! p)
  /\ forall (pop_size n_gen n_repeat : Z) (n_pts_keep : option Z),
       ~ In (Load path)
            (events_of (_calc_pareto_front home crowding self pop_size n_gen
                          n_repeat n_pts_keep)
                       (snd (reset_pf_cache home self w))).
Proof.
  intros Hp.
  assert (Hreset :
    reset_pf_cache home self w
    = (Ok tt, match files w !! path with
              | Some _ => {| files := delete path (files w);
                             log := log w ++ [Remove path] |}
              | None => w
              end)).
  { unfold reset_pf_cache, bind, lift, os_path_exists. rewrite Hp. cbv beta iota.
    destruct (files w !! path) as [cached|] eqn:Hc.
    - rewrite bool_decide_eq_true_2 by eauto. reflexivity.
    - rewrite bool_decide_eq_false_2 by (intros [? ?]; discriminate).
      reflexivity. }
  rewrite Hreset. simpl.
  assert (Hgone :
    files (match files w !! path with
           | Some _ => {| files := delete path (files w);
                          log := log w ++ [Remove path] |}
           | None => w
           end) !! path = None).
  { destruct (files w !! path) eqn:Hc; simpl; [apply lookup_delete_eq|exact Hc]. }
  split; [reflexivity|]. split; [exact Hgone|]. split.
  - intros p Hne. destruct (files w !! path); simpl; auto.
    now apply lookup_delete_ne.
  - intros pop_size n_gen n_repeat keep.
    apply (calc_pareto_front_miss_no_load _ _ _ _ _ _ _ _ path Hp Hgone).
Qed.

Lemma reset_then_recompute_witness :
  let w := snd (_calc_pareto_front "/home/user" pymoo_crowding grid_problem
                  200 20 10 (Some 100) empty_world) in
  let path := "/home/user/.arch_opt_pf_cache/grid__.pkl"%string in
  fst (reset_pf_cache "/home/user" grid_problem w) = Ok tt
  /\ files (snd (reset_pf_cache "/home/user" grid_problem w)) !! path = None
  /\ (forall p, p <> path ->
        files (snd (reset_pf_cache "/home/user" grid_problem w)) !! p
        = files w !! p)
  /\ forall (pop_size n_gen n_repeat : Z) (n_pts_keep : option Z),
       ~ In (Load path)
            (events_of (_calc_pareto_front "/home/user" pymoo_crowding
                          grid_problem pop_size n_gen n_repeat n_pts_keep)
                       (snd (reset_pf_cache "/home/user" grid_problem w))).
Proof.
  apply (reset_then_recompute "/home/user" pymoo_crowding grid_problem).
  vm_compute. reflexivity.
Defined.

Example reset_and_call_again :
  let w := snd (_calc_pareto_front "/home/user" pymoo_crowding grid_problem
                  200 20 10 (Some 100) empty_world) in
  log (snd (_calc_pareto_front "/home/user" pymoo_crowding grid_problem
              200 20 10 (Some 100)
              (snd (reset_pf_cache "/home/user" grid_problem w))))
  = [Sample 9; Evaluate 9; Dump "/home/user/.arch_opt_pf_cache/grid__.pkl";
     Remove "/home/user/.arch_opt_pf_cache/grid__.pkl";
     Sample 9; Evaluate 9; Dump "/home/user/.arch_opt_pf_cache/grid__.pkl"].
Proof. vm_compute. reflexivity. Qed.

(** * Further properties of [pareto_front.py] *)

(** ** What the merged front keeps *)

Lemma merge_runs_incl (futures : list (result front)) :
  forall (acc : option front) (pf : front),
    merge_runs acc futures = Ok (Some pf) ->
    forall f, In f pf ->
      (exists X, acc = Some X /\ In f X)
      \/ (exists F, In (Ok F) futures /\ In f F).
Proof.
  induction futures as [|[F|e] futures IH]; intros acc pf E f Hf; simpl in E.
  - inversion E; subst. left. eauto.
  - destruct (IH _ _ E f Hf) as [[X [HX Hin]]|[G [HG Hin]]].
    + inversion HX; subst. destruct acc as [pf0|].
      * apply in_non_dominated_front in Hin as [Hin _].
        apply List.in_app_or in Hin as [Hin|Hin].
        -- left. eauto.
        -- right. exists F. split; [now left|assumption].
      * right. exists F. split; [now left|assumption].
    + right. exists G. split; [now right|assumption].
  - discriminate.
Qed.

(** X2: the merge of lines 84-92 loses no information: every row of every
    run's front is in the merged front or is dominated by a row of the merged
    front. *)
Theorem merged_front_covers_runs (n_obj : nat) (fronts : list front) (pf : front) :
  Forall (is_matrix n_obj) fronts ->
  merge_runs None (List.map Ok fronts) = Ok (Some pf) ->
  forall F f, In F fronts -> In f F ->
    In f pf \/ exists g, In g pf /\ dominates g f = true.
Proof.
  intros HM E F f HF Hf.
  destruct fronts as [|F1 [|F2 rest]]; [destruct HF| |].
  - simpl in E. inversion E; subst. destruct HF as [<-|[]]. now left.
  - inversion HM as [|? ? HF1 HM']; subst.
    inversion HM' as [|? ? HF2 HM'']; subst.
    simpl in E.
    rewrite (merge_runs_filtered n_obj rest HM'' (F1 ++ F2)) in E
      by (apply is_matrix_app; auto).
    inversion E; subst. clear E.
    set (all := (F1 ++ F2) ++ List.concat rest).
    assert (Hall : is_matrix n_obj all).
    { apply is_matrix_app; [apply is_matrix_app; auto|].
      clear -HM''. induction HM''; simpl; [constructor|].
      apply is_matrix_app; auto. }
    assert (Hin : In f all).
    { unfold all. destruct HF as [<-|[<-|HF]].
      - apply List.in_or_app. left. apply List.in_or_app. now left.
      - apply List.in_or_app. left. apply List.in_or_app. now right.
      - apply List.in_or_app. right. apply List.in_concat. eauto. }
    destruct (is_dominated all f) eqn:Ed.
    + right.
      apply (dominated_by_non_dominated n_obj all Hall _ f
               (proj1 (List.Forall_forall _ _) Hall f Hin) (le_n _) Ed).
    + left. apply in_non_dominated_front. auto.
Qed.

Lemma merged_front_covers_runs_witness :
  In [2; 9] [[10; 0]; [1; 8]; [5; 3]; [0; 10]; [0; 10]; [10; 0]]
  \/ exists g, In g [[10; 0]; [1; 8]; [5; 3]; [0; 10]; [0; 10]; [10; 0]]
               /\ dominates g [2; 9] = true.
Proof.
  apply (merged_front_covers_runs 2
           [[[10; 0]; [1; 8]]; [[5; 3]; [0; 10]; [2; 9]]; [[0; 10]; [10; 0]]]
           [[10; 0]; [1; 8]; [5; 3]; [0; 10]; [0; 10]; [10; 0]])
    with (F := [[5; 3]; [0; 10]; [2; 9]]).
  - repeat constructor.
  - vm_compute. reflexivity.
  - simpl. auto.
  - simpl. auto.
Defined.

(** ** Where the returned rows come from *)

(** X3: on a cache miss every row of the returned front was found by this
    call: it is the evaluation of a valid point of the design space
    (exhaustive path) or a row of the front of one of the [n_repeat] runs. *)
Theorem returned_rows_were_found (home : string) (crowding : front -> nat -> score)
  (self : Problem) (pop_size n_gen n_repeat : Z) (n_pts_keep : option Z)
  (w w' : World) (path : string) (pf : front) :
  _pf_cache_path home self = Ok path ->
  files w !! path = None ->
  _calc_pareto_front home crowding self pop_size n_gen n_repeat n_pts_keep w
  = (Ok pf, w') ->
  forall f, In f pf ->
    (exists x, valid_point self x /\ f = evaluate self x)
    \/ (exists i F, (i < Z.to_nat n_repeat)%nat
                    /\ minimize self pop_size n_gen i = Ok F /\ In f F).
Proof.
  intros Hp Hc E f Hf.
  rewrite (calc_pareto_front_miss _ _ _ _ _ _ _ _ _ Hp Hc) in E.
  destruct (approximate_front self pop_size n_gen n_repeat w)
    as [[[raw|]|e] w1] eqn:Ea; try discriminate.
  simpl in E. injection E as Hpf Hw. subst pf.
  apply finalize_front_incl in Hf.
  assert (Hn : forall w0, nsga2_front self pop_size n_gen n_repeat w0
                          = (Ok (Some raw), w1) ->
            exists i F, (i < Z.to_nat n_repeat)%nat
                        /\ minimize self pop_size n_gen i = Ok F /\ In f F).
  { intros w0 E0. rewrite nsga2_front_run in E0. injection E0 as Hm _.
    destruct (merge_runs_incl _ _ _ Hm f Hf) as [[X [HX _]]|[F [HF Hin]]];
      [discriminate|].
    unfold outcomes in HF. apply List.in_map_iff in HF as [i [Hi Hseq]].
    apply List.in_seq in Hseq. exists i, F. repeat split; auto. lia. }
  unfold approximate_front in Ea.
  destruct (design_space_size (vars self) 1) as [n|]; [|right; eauto].
  destruct (n <? pop_size * n_gen * n_repeat); [|right; eauto].
  unfold bind in Ea. rewrite exhaustive_front_run in Ea.
  injection Ea as Hraw _. subst raw.
  apply in_non_dominated_front in Hf as [Hf _].
  apply List.in_map_iff in Hf as [x [Hx Hin]].
  left. exists x. split; [now apply in_exhaustive_sampling in Hin|now symmetry].
Qed.

Lemma returned_rows_were_found_witness :
  (exists x, valid_point curve_problem x /\ [5; 3] = evaluate curve_problem x)
  \/ (exists i F, (i < Z.to_nat 3)%nat
                  /\ minimize curve_problem 200 20 i = Ok F /\ In [5; 3] F).
Proof.
  apply (returned_rows_were_found "/home/user" pymoo_crowding curve_problem 200 20 3
           (Some 3) empty_world
           {| files := {[ "/home/user/.arch_opt_pf_cache/curve.pkl"%string
                          := [[5; 3]; [0; 10]; [10; 0]] ]};
              log := [Submit 0; Submit 1; Submit 2; WaitAll;
                      Dump "/home/user/.arch_opt_pf_cache/curve.pkl"] |}
           "/home/user/.arch_opt_pf_cache/curve.pkl"
           [[5; 3]; [0; 10]; [10; 0]]);
    [vm_compute; reflexivity..|simpl; auto].
Defined.

(** ** What a call does to the cache files *)

(** X4: a call that raises leaves every cache file as it was; a call that
    returns a front leaves that front in the problem's own cache file and
    every other file as it was. *)
Theorem call_touches_only_own_file (home : string)
  (crowding : front -> nat -> score) (self : Problem)
  (pop_size n_gen n_repeat : Z) (n_pts_keep : option Z) (w : World) :
  match _calc_pareto_front home crowding self pop_size n_gen n_repeat
          n_pts_keep w with
  | (Raise _, w') => files w' = files w
  | (Ok pf, w') =>
      exists path,
        _pf_cache_path home self = Ok path
        /\ files w' !! path = Some pf
        /\ forall p, p <> path -> files w' !! p = files w !! p
  end.
Proof.
  destruct (_pf_cache_path home self) as [path|e] eqn:Hp.
  2:{ unfold _calc_pareto_front, bind, lift. rewrite Hp. reflexivity. }
  destruct (files w !! path) as [cached|] eqn:Hc.
  - rewrite (calc_pareto_front_hit _ _ _ _ _ _ _ _ _ _ Hp Hc).
    exists path. simpl. auto.
  - rewrite (calc_pareto_front_miss _ _ _ _ _ _ _ _ _ Hp Hc).
    pose proof (approximate_front_files self pop_size n_gen n_repeat w) as Hf.
    destruct (approximate_front self pop_size n_gen n_repeat w)
      as [[[raw|]|e] w1]; simpl in *; auto.
    exists path. rewrite Hf. split; [reflexivity|]. split.
    + apply lookup_insert_eq.
    + intros p Hne. now apply lookup_insert_ne.
Qed.

(** ** No run at all *)

(** X5: on the stochastic path with [n_repeat <= 0] no run is submitted, [pf]
    stays [None], and line 95 raises: the call returns no front and writes no
    cache file. *)
Theorem no_run_raises (home : string) (crowding : front -> nat -> score)
  (self : Problem) (pop_size n_gen n_repeat : Z) (n_pts_keep : option Z)
  (w : World) (path : string) :
  _pf_cache_path home self = Ok path ->
  files w !! path = None ->
  stochastic_path self pop_size n_gen n_repeat ->
  n_repeat <= 0 ->
  _calc_pareto_front home crowding self pop_size n_gen n_repeat n_pts_keep w
  = (Raise AxisError, {| files := files w; log := log w ++ [WaitAll] |}).
Proof.
  intros Hp Hc Hs Hn.
  rewrite (calc_pareto_front_miss _ _ _ _ _ _ _ _ _ Hp Hc).
  rewrite (approximate_front_stochastic _ _ _ _ _ Hs), nsga2_front_run.
  unfold outcomes, nsga2_events, add_events.
  replace (Z.to_nat n_repeat) with O by lia. reflexivity.
Qed.

Lemma no_run_raises_witness :
  _calc_pareto_front "/home/user" pymoo_crowding grid_problem 200 20 0 (Some 100)
    empty_world
  = (Raise AxisError,
     {| files := files empty_world; log := log empty_world ++ [WaitAll] |}).
Proof.
  apply (no_run_raises "/home/user" pymoo_crowding grid_problem 200 20 0 (Some 100)
           empty_world "/home/user/.arch_opt_pf_cache/grid__.pkl").
  - vm_compute. reflexivity.
  - vm_compute. reflexivity.
  - vm_compute. discriminate.
  - lia.
Defined.

(** ** A limit that is not positive *)

Lemma reduce_loop_length (crowding : front -> nat -> score) (n : nat) :
  forall pf,
    List.length (snd (reduce_loop crowding n pf)) = (List.length pf - n)%nat.
Proof.
  induction n as [|n IH]; intros pf; simpl; [lia|].
  specialize (IH (reduce_step crowding pf)).
  rewrite reduce_step_length in IH.
  destruct (reduce_loop crowding n (reduce_step crowding pf)). simpl in *. lia.
Qed.

(** X7: with [n_pts_keep <= 0] the loop of lines 97-100 runs until no row is
    left (and goes on over the empty array when the limit is negative): on a
    cache miss the call returns, and caches, an empty front. *)
Theorem nonpositive_limit_empties (home : string)
  (crowding : front -> nat -> score) (self : Problem)
  (pop_size n_gen n_repeat k : Z) (w w' : World) (path : string) (pf : front) :
  _pf_cache_path home self = Ok path ->
  files w !! path = None ->
  k <= 0 ->
  _calc_pareto_front home crowding self pop_size n_gen n_repeat (Some k) w
  = (Ok pf, w') ->
  pf = [] /\ files w' !! path = Some [].
Proof.
  intros Hp Hc Hk E.
  rewrite (calc_pareto_front_miss _ _ _ _ _ _ _ _ _ Hp Hc) in E.
  destruct (approximate_front self pop_size n_gen n_repeat w)
    as [[[raw|]|e] w1]; try discriminate.
  simpl in E. injection E as Hpf Hw.
  assert (Hnil : finalize_front crowding raw (Some k) = []).
  { unfold finalize_front, reduce_front.
    destruct (Z.gtb_spec (Z.of_nat (List.length (np_unique raw))) k) as [Hgt|Hle].
    - apply List.length_zero_iff_nil. rewrite reduce_loop_length. lia.
    - simpl. apply List.length_zero_iff_nil. lia. }
  rewrite Hnil in Hpf, Hw. subst pf w'. split; [reflexivity|].
  simpl. apply lookup_insert_eq.
Qed.

Lemma nonpositive_limit_empties_witness :
  ([] : front) = []
  /\ files {| files := {[ "/home/user/.arch_opt_pf_cache/grid__.pkl"%string := [] ]};
              log := [Sample 9; Evaluate 9;
                      Dump "/home/user/.arch_opt_pf_cache/grid__.pkl"] |}
     !! "/home/user/.arch_opt_pf_cache/grid__.pkl"%string = Some [].
Proof.
  apply (nonpositive_limit_empties "/home/user" pymoo_crowding grid_problem
           200 20 10 (-1) empty_world); vm_compute; first [reflexivity|discriminate].
Defined.

(** * Properties of [get_approx_f_range] *)

Section ReduceRows.

Variable op : Z -> Z -> Z.
Variable R : Z -> Z -> Prop.
Hypothesis R_refl : forall a, R a a.
Hypothesis R_trans : forall a b c, R a b -> R b c -> R a c.
Hypothesis op_l : forall a b, R (op a b) a.
Hypothesis op_r : forall a b, R (op a b) b.
Hypothesis op_one : forall a b, op a b = a \/ op a b = b.
Hypothesis op_zero : op 0 0 = 0.

Lemma nth_pointwise (a b : row) (j : nat) :
  List.length a = List.length b ->
  List.nth j (pointwise op a b) 0 = op (List.nth j a 0) (List.nth j b 0).
Proof.
  unfold pointwise. revert b j.
  induction a as [|x a IH]; intros [|y b] j H; simpl in *; try discriminate.
  - destruct j; symmetry; apply op_zero.
  - destruct j; [reflexivity|]. apply IH. lia.
Qed.

Lemma pointwise_length (a b : row) :
  List.length a = List.length b -> List.length (pointwise op a b) = List.length a.
Proof.
  intros H. unfold pointwise. rewrite List.length_map, List.length_combine. lia.
Qed.

Lemma fold_pointwise (n : nat) (rest : front) :
  is_matrix n rest ->
  forall acc, List.length acc = n ->
    let m := List.fold_left (pointwise op) rest acc in
    List.length m = n
    /\ forall j,
         R (List.nth j m 0) (List.nth j acc 0)
         /\ (forall f, In f rest -> R (List.nth j m 0) (List.nth j f 0))
         /\ (List.nth j m 0 = List.nth j acc 0
             \/ exists f, In f rest /\ List.nth j m 0 = List.nth j f 0).
Proof.
  induction 1 as [|f rest Hf Hrest IH]; intros acc Hacc; simpl.
  - split; [assumption|]. intros j. split; [apply R_refl|].
    split; [intros f []|now left].
  - assert (Hlen : List.length (pointwise op acc f) = n)
      by (rewrite pointwise_length; lia).
    destruct (IH _ Hlen) as [Hm Hj]. split; [exact Hm|].
    intros j. destruct (Hj j) as [H1 [H2 H3]].
    rewrite nth_pointwise in H1, H3 by lia.
    split; [eapply R_trans; [exact H1|apply op_l]|]. split.
    + intros g [<-|Hg]; [eapply R_trans; [exact H1|apply op_r]|auto].
    + destruct H3 as [H3|[g [Hg H3]]].
      * destruct (op_one (List.nth j acc 0) (List.nth j f 0)) as [E|E];
          rewrite E in H3; [now left|right; exists f; auto].
      * right. exists g. auto.
Qed.

End ReduceRows.

(** X6: for a sample with at least one row, [get_approx_f_range] returns two
    rows, the column-wise minima and maxima of the objective values: every
    entry of the sample lies between them and each of them is attained by a
    row of the sample. *)
Theorem approx_f_range_bounds (n_obj : nat) (f : front) :
  f <> [] ->
  is_matrix n_obj f ->
  exists f_min f_max,
    approx_f_range f = Return [f_min; f_max]
    /\ List.length f_min = n_obj /\ List.length f_max = n_obj
    /\ forall j,
         (forall r, In r f ->
                    List.nth j f_min 0 <= List.nth j r 0 <= List.nth j f_max 0)
         /\ (exists r, In r f /\ List.nth j r 0 = List.nth j f_min 0)
         /\ (exists r, In r f /\ List.nth j r 0 = List.nth j f_max 0).
Proof.
  intros Hne HM. destruct f as [|f0 rest]; [congruence|].
  inversion HM as [|? ? Hf0 Hrest]; subst.
  destruct (fold_pointwise Z.min Z.le Z.le_refl Z.le_trans Z.le_min_l Z.le_min_r
              ltac:(intros a b; lia) eq_refl _ rest Hrest f0 eq_refl)
    as [Hmin Hjmin].
  destruct (fold_pointwise Z.max Z.ge ltac:(intros a; lia)
              ltac:(intros a b c; lia) ltac:(intros a b; lia)
              ltac:(intros a b; lia) ltac:(intros a b; lia) eq_refl
              _ rest Hrest f0 eq_refl)
    as [Hmax Hjmax].
  exists (List.fold_left (pointwise Z.min) rest f0),
         (List.fold_left (pointwise Z.max) rest f0).
  split; [reflexivity|]. split; [exact Hmin|]. split; [exact Hmax|].
  intros j. destruct (Hjmin j) as [A1 [A2 A3]], (Hjmax j) as [B1 [B2 B3]].
  split; [|split].
  - intros r [<-|Hr]; [lia|]. specialize (A2 r Hr). specialize (B2 r Hr). lia.
  - destruct A3 as [A3|[r [Hr A3]]].
    + exists f0. split; [now left|now symmetry].
    + exists r. split; [now right|now symmetry].
  - destruct B3 as [B3|[r [Hr B3]]].
    + exists f0. split; [now left|now symmetry].
    + exists r. split; [now right|now symmetry].
Qed.

Lemma approx_f_range_bounds_witness :
  exists f_min f_max,
    approx_f_range [[0; 10]; [1; 8]; [5; 3]] = Return [f_min; f_max]
    /\ List.length f_min = 2%nat /\ List.length f_max = 2%nat
    /\ forall j,
         (forall r, In r [[0; 10]; [1; 8]; [5; 3]] ->
                    List.nth j f_min 0 <= List.nth j r 0 <= List.nth j f_max 0)
         /\ (exists r, In r [[0; 10]; [1; 8]; [5; 3]]
                       /\ List.nth j r 0 = List.nth j f_min 0)
         /\ (exists r, In r [[0; 10]; [1; 8]; [5; 3]]
                       /\ List.nth j r 0 = List.nth j f_max 0).
Proof.
  apply approx_f_range_bounds; [discriminate|repeat constructor].
Defined.

Example approx_f_range_three_rows :
  approx_f_range [[0; 10]; [1; 8]; [5; 3]] = Return [[0; 3]; [5; 10]].
Proof. reflexivity. Qed.

Example approx_f_range_no_rows : approx_f_range [] = Throw ValueError.
Proof. reflexivity. Qed.

(** * Properties of the EGOR interface *)

(** ** Splitting a population into points and outputs, and back *)

Lemma select_rows_map {A B} (f : A -> B) (mask : list bool) (l : list A) :
  select_rows mask (List.map f l) = List.map f (select_rows mask l).
Proof.
  unfold select_rows. revert mask.
  induction l as [|a l IH]; intros [|b mask]; simpl; auto.
  destruct b; simpl; now rewrite IH.
Qed.

Lemma select_rows_count {A} (mask : list bool) (l : list A) :
  List.length mask = List.length l ->
  (List.length (select_rows (List.map negb mask) l)
   + List.length (select_rows mask l))%nat = List.length l.
Proof.
  unfold select_rows. revert mask.
  induction l as [|a l IH]; intros [|b mask] H; simpl in *; try discriminate; auto.
  specialize (IH mask ltac:(lia)).
  destruct b; simpl; lia.
Qed.

Lemma firstn_app_length {A} (a b : list A) : List.firstn (List.length a) (a ++ b) = a.
Proof. induction a as [|x a IH]; simpl; [now destruct b|now rewrite IH]. Qed.

Lemma map_firstn_app {A B} (k : nat) (a b : A -> list B) (l : list A) :
  (forall i, In i l -> List.length (a i) = k) ->
  List.map (List.firstn k) (List.map (fun i => a i ++ b i) l) = List.map a l.
Proof.
  intros H. rewrite List.map_map. apply List.map_ext_in. intros i Hi.
  rewrite <- (H i Hi). apply firstn_app_length.
Qed.

Lemma map_skipn_app {A B} (k : nat) (a b : A -> list B) (l : list A) :
  (forall i, In i l -> List.length (a i) = k) ->
  List.map (List.skipn k) (List.map (fun i => a i ++ b i) l) = List.map b l.
Proof.
  intros H. rewrite List.map_map. apply List.map_ext_in. intros i Hi.
  rewrite <- (H i Hi). apply skipn_length_app.
Qed.

Section EgorFacts.

Variable val : Type.
Variable problem : EgorProblem val.

#[local] Abbreviation evaluated := (evaluated val problem).
#[local] Abbreviation failed := (failed val problem).
#[local] Abbreviation well_shaped := (well_shaped val problem).
#[local] Abbreviation masked := (masked val problem).
#[local] Abbreviation with_design_space := (with_design_space val).

Lemma get_xy_return (pop : population val)
  (p : matrix val * matrix val * matrix val) :
  _get_xy val problem pop = Return p ->
  pop <> []
  /\ List.length (get_failed_points val problem pop) = List.length pop
  /\ p = split_points val problem pop.
Proof.
  unfold _get_xy. destruct pop as [|i pop]; [discriminate|].
  destruct (Nat.eqb_spec
              (List.length (get_failed_points val problem (i :: pop)))
              (List.length (i :: pop))) as [Hm|Hm]; intros E; inversion E.
  split; [discriminate|]. split; [exact Hm|reflexivity].
Qed.

Lemma get_xy_returns (pop : population val) :
  pop <> [] ->
  List.length (get_failed_points val problem pop) = List.length pop ->
  _get_xy val problem pop = Return (split_points val problem pop).
Proof.
  intros Hne Hm. unfold _get_xy. destruct pop as [|i pop]; [contradiction|].
  rewrite Hm, Nat.eqb_refl. reflexivity.
Qed.

Lemma get_xy_raises (pop : population val) :
  pop = []
  \/ List.length (get_failed_points val problem pop) <> List.length pop ->
  _get_xy val problem pop = Throw IndexError.
Proof.
  unfold _get_xy. destruct pop as [|i pop]; [reflexivity|].
  intros [H|H]; [discriminate|].
  destruct (Nat.eqb_spec
              (List.length (get_failed_points val problem (i :: pop)))
              (List.length (i :: pop))); [contradiction|reflexivity].
Qed.

Lemma split_points_partition (pop : population val) :
  List.length (get_failed_points val problem pop) = List.length pop ->
  let '(x, x_failed, y) := split_points val problem pop in
  x = List.map (ind_X val) (evaluated pop)
  /\ y = List.map (outputs_of val problem) (evaluated pop)
  /\ x_failed = List.map (ind_X val) (failed pop)
  /\ List.length x = List.length y
  /\ (List.length x + List.length x_failed)%nat = List.length pop.
Proof.
  intros Hmask. unfold split_points, evaluated, failed.
  rewrite !select_rows_map, !List.length_map.
  repeat split; auto. now apply select_rows_count.
Qed.

(** X8: [_get_xy] splits a population by the mask of failed points: for a
    population with individuals and a mask with one entry for each, [x] and
    [y] are the design vectors and the stacked outputs of the individuals that
    did not fail, row for row, [x_failed] the design vectors of those that
    failed, and no individual is lost.  On a population without individuals,
    or with a mask of another length, it raises [IndexError]. *)
Theorem get_xy_partition (pop : population val) :
  (pop = []
   \/ List.length (get_failed_points val problem pop) <> List.length pop ->
   _get_xy val problem pop = Throw IndexError)
  /\ (pop <> [] ->
      List.length (get_failed_points val problem pop) = List.length pop ->
      exists x x_failed y,
        _get_xy val problem pop = Return (x, x_failed, y)
        /\ x = List.map (ind_X val) (evaluated pop)
        /\ y = List.map (outputs_of val problem) (evaluated pop)
        /\ x_failed = List.map (ind_X val) (failed pop)
        /\ List.length x = List.length y
        /\ (List.length x + List.length x_failed)%nat = List.length pop).
Proof.
  split; [apply get_xy_raises|].
  intros Hne Hmask. rewrite (get_xy_returns pop Hne Hmask).
  pose proof (split_points_partition pop Hmask) as H.
  destruct (split_points val problem pop) as [[x xf] y].
  exists x, xf, y. split; [reflexivity|exact H].
Qed.

Lemma split_y_outputs (l : population val) :
  well_shaped l ->
  _split_y val problem (List.map (outputs_of val problem) l)
  = (List.map (ind_F val) l, List.map (ind_G val) l, List.map (ind_H val) l).
Proof.
  intros Hl. pose proof (proj1 (List.Forall_forall _ _) Hl) as Hw.
  unfold _split_y, split_columns, no_columns, outputs_of.
  rewrite map_firstn_app, map_skipn_app by (intros i Hi; apply (Hw i Hi)).
  assert (HH : List.map (fun i => if (0 <? n_eq_constr val problem)%nat
                                  then ind_H val i else []) l
               = List.map (ind_H val) l).
  { apply List.map_ext_in. intros i Hi. destruct (Hw i Hi) as [_ [_ HH]].
    destruct (0 <? n_eq_constr val problem)%nat eqn:E; auto.
    apply Nat.ltb_ge in E. symmetry. apply List.length_zero_iff_nil. lia. }
  assert (Hh : (if (0 <? n_eq_constr val problem)%nat
                then List.map (List.firstn (n_eq_constr val problem))
                       (List.map (ind_H val) l)
                else List.map (fun _ => []) (List.map (ind_H val) l))
               = List.map (ind_H val) l).
  { destruct (0 <? n_eq_constr val problem)%nat eqn:E; rewrite List.map_map;
      apply List.map_ext_in; intros i Hi; destruct (Hw i Hi) as [_ [_ HHi]].
    - rewrite <- HHi. apply List.firstn_all.
    - apply Nat.ltb_ge in E. symmetry. apply List.length_zero_iff_nil. lia. }
  destruct (0 <? n_ieq_constr val problem)%nat eqn:Eg.
  - rewrite map_firstn_app, map_skipn_app by (intros i Hi; apply (Hw i Hi)).
    rewrite HH, Hh. reflexivity.
  - apply Nat.ltb_ge in Eg. simpl. rewrite HH, Hh.
    f_equal. f_equal. rewrite List.map_map. apply List.map_ext_in.
    intros i Hi. destruct (Hw i Hi) as [_ [HG _]].
    symmetry. apply List.length_zero_iff_nil. lia.
Qed.

Lemma population_new_fields (l : population val) :
  population_new val (List.map (ind_X val) l) (List.map (ind_F val) l)
    (List.map (ind_G val) l) (List.map (ind_H val) l)
  = Return l.
Proof.
  induction l as [|[x f g h] l IH]; simpl; [reflexivity|]. now rewrite IH.
Qed.

Lemma well_shaped_select (mask : list bool) (pop : population val) :
  well_shaped pop -> well_shaped (select_rows mask pop).
Proof.
  unfold well_shaped, select_rows. intros H. apply List.Forall_forall.
  intros i Hi. apply List.in_map_iff in Hi as [[b j] [<- Hi]].
  apply List.filter_In in Hi as [Hi _]. apply List.in_combine_r in Hi.
  apply (proj1 (List.Forall_forall _ _) H _ Hi).
Qed.

(** X9: [get_population] undoes [_get_xy]: from the [x] and [y] that
    [_get_xy] returns for a population with individuals, one mask entry for
    each, and [n_obj], [n_ieq_constr] and [n_eq_constr] outputs per
    individual, it rebuilds exactly the individuals that did not fail, with
    their [X], [F], [G] and [H]. *)
Theorem get_population_get_xy (pop : population val) :
  pop <> [] ->
  List.length (get_failed_points val problem pop) = List.length pop ->
  well_shaped pop ->
  exists x x_failed y,
    _get_xy val problem pop = Return (x, x_failed, y)
    /\ get_population val problem x y = Return (evaluated pop).
Proof.
  intros Hne Hmask Hpop. rewrite (get_xy_returns pop Hne Hmask).
  unfold split_points. rewrite !select_rows_map.
  eexists _, _, _. split; [reflexivity|].
  fold (evaluated pop). unfold get_population.
  rewrite (split_y_outputs (evaluated pop))
    by (apply well_shaped_select; assumption).
  apply population_new_fields.
Qed.

(** ** The design space handed to egobox *)

Lemma append_xspecs_app (pre post : list DesVar) (acc specs : list XSpec) :
  append_xspecs pre acc = (None, specs) ->
  append_xspecs (pre ++ post) acc = append_xspecs post specs.
Proof.
  revert acc. induction pre as [|v pre IH]; intros acc E; simpl in *.
  - now inversion E.
  - destruct (xspec_of v); [now apply IH|discriminate].
Qed.

Lemma append_xspecs_supported (vs : list DesVar) :
  (forall v, In v vs -> v <> VOther) ->
  forall acc, exists specs,
    append_xspecs vs acc = (None, acc ++ specs)
    /\ Forall2 (fun v s => xspec_of v = Return s) vs specs.
Proof.
  induction vs as [|v vs IH]; intros H acc; simpl.
  - exists []. rewrite List.app_nil_r. split; [reflexivity|constructor].
  - assert (Hv : v <> VOther) by (apply H; now left).
    destruct (IH (fun u Hu => H u (or_intror Hu))
                 (acc ++ [match xspec_of v with Return s => s | Throw _ => XEnum 0 end]))
      as [specs [E HF]].
    destruct v as [lb ub|lb ub| |options|]; try congruence; simpl in *;
      eexists (_ :: specs); rewrite <- List.app_assoc in E;
      (split; [exact E|constructor; [reflexivity|exact HF]]).
Qed.

(** X10: the [design_space] property has one specification per design
    variable, in order, when every variable is a [Real], [Integer], [Binary]
    or [Choice], and keeps it for later uses.  At the first variable of
    another kind the first use raises [RuntimeError]; as
    [self._design_space] then already holds the specifications of the
    variables before that one, every later use returns this shorter list
    without raising. *)
Theorem design_space_memo (st : EgorState val) :
  _design_space val st = None ->
  ((forall v, In v (des_vars val problem) -> v <> VOther) ->
   exists specs,
     Forall2 (fun v s => xspec_of v = Return s) (des_vars val problem) specs
     /\ design_space val problem st = (Return specs, with_design_space st specs)
     /\ design_space val problem (with_design_space st specs)
        = (Return specs, with_design_space st specs))
  /\ (forall pre post,
        des_vars val problem = pre ++ VOther :: post ->
        (forall v, In v pre -> v <> VOther) ->
        exists specs,
          Forall2 (fun v s => xspec_of v = Return s) pre specs
          /\ design_space val problem st
             = (Throw RuntimeError, with_design_space st specs)
          /\ design_space val problem (with_design_space st specs)
             = (Return specs, with_design_space st specs)).
Proof.
  intros Hnone. split.
  - intros Hall.
    destruct (append_xspecs_supported _ Hall []) as [specs [E HF]].
    exists specs. split; [exact HF|]. split.
    + unfold design_space. rewrite Hnone, E. reflexivity.
    + reflexivity.
  - intros pre post Hvars Hpre.
    destruct (append_xspecs_supported _ Hpre []) as [specs [E HF]].
    exists specs. split; [exact HF|]. split.
    + unfold design_space. rewrite Hnone, Hvars.
      rewrite (append_xspecs_app pre (VOther :: post) [] specs E). reflexivity.
    + reflexivity.
Qed.

(** ** Running the optimization *)

Variable seed : option Z.
Variable results_folder : string.
Variable n_init : Z.
Variable res : Type.
Variable engine : EgorEngine val res.

#[local] Abbreviation aligned := (aligned val).
#[local] Abbreviation infilled := (infilled val problem res engine).
#[local] Abbreviation infills := (infills val problem res engine).
#[local] Abbreviation sized := (sized val problem res engine).
#[local] Abbreviation with_points := (with_points val).
#[local] Abbreviation saved := (saved val).
#[local] Abbreviation prepare :=
  (prepare val problem results_folder n_init res engine).
#[local] Abbreviation doe_points := (doe_points val problem n_init res engine).

Lemma design_space_frame (st st' : EgorState val) (r : outcome (list XSpec)) :
  design_space val problem st = (r, st') ->
  points val st' = points val st /\ stored val st' = stored val st
  /\ _egor val st' = _egor val st.
Proof.
  unfold design_space. destruct (_design_space val st).
  - intros E. inversion E; subst. auto.
  - destruct (append_xspecs (des_vars val problem) []) as [stopped specs].
    intros E. inversion E; subst. simpl. auto.
Qed.

Lemma egor_frame (st st' : EgorState val) (r : outcome EgorConfig) :
  egor val problem seed st = (r, st') ->
  points val st' = points val st /\ stored val st' = stored val st.
Proof.
  unfold egor. destruct (_egor val st).
  - intros E. inversion E; subst. auto.
  - unfold ebind.
    destruct (design_space val problem st) as [[specs|e] st1] eqn:Ed;
      apply design_space_frame in Ed as [Hp [Hs _]].
    + destruct (_get_constraints_nb val problem); intros E; inversion E; subst;
        simpl; auto.
    + intros E. inversion E; subst. auto.
Qed.

Lemma infill_step_spec (st st' : EgorState val) (r : outcome unit) :
  infill_step val problem seed res engine st = (r, st') ->
  match r with
  | Return _ => infilled st st'
  | Throw _ => points val st' = points val st /\ stored val st' = stored val st
  end.
Proof.
  unfold infill_step. destruct (points val st) as [[[x0 xf0] y0]|] eqn:Hpts.
  2:{ intros E. inversion E; subst. auto. }
  unfold ebind.
  destruct (egor val problem seed st) as [[cfg|e] st1] eqn:Ee;
    apply egor_frame in Ee as [Hp Hs].
  2:{ intros E. inversion E; subst. split; congruence. }
  rewrite Hp, Hpts.
  destruct (suggest val res engine cfg x0 y0) as [x_new|e] eqn:Es.
  2:{ intros E. inversion E; subst. split; congruence. }
  destruct (_get_xy val problem (_evaluate val problem x_new))
    as [[[x xf] y]|e] eqn:Ex.
  2:{ intros E. inversion E; subst. split; congruence. }
  unfold set_points, _save_results. simpl. intros E. inversion E; subst.
  exists cfg, x0, xf0, y0, x_new, x, xf, y.
  split; [exact Hpts|]. split; [exact Es|]. split; [exact Ex|].
  split; [reflexivity|]. simpl. now rewrite Hs.
Qed.

Lemma repeat_step_spec (k : nat) :
  forall (st st' : EgorState val) (r : outcome unit),
    repeat_step val problem seed res engine k st = (r, st') ->
    match r with
    | Return _ => infills k st st'
    | Throw _ => exists j, (j < k)%nat /\ infills j st st'
    end.
Proof.
  induction k as [|k IH]; intros st st' r E; simpl in E.
  - inversion E; subst. now constructor.
  - unfold ebind in E.
    destruct (infill_step val problem seed res engine st) as [[[]|e] st1] eqn:Ei;
      apply infill_step_spec in Ei.
    + apply IH in E. destruct r as [[]|e].
      * econstructor; eauto.
      * destruct E as [j [Hj E]]. exists (S j). split; [lia|].
        econstructor; eauto.
    + inversion E; subst. exists O. split; [lia|]. now constructor.
Qed.

Lemma split_points_aligned (pop : population val) :
  let '(x, _, y) := split_points val problem pop in
  List.length x = List.length y.
Proof.
  unfold split_points. now rewrite !select_rows_map, !List.length_map.
Qed.

Lemma get_xy_aligned (pop : population val) (x xf y : matrix val) :
  _get_xy val problem pop = Return (x, xf, y) ->
  List.length x = List.length y.
Proof.
  intros E. apply get_xy_return in E as [_ [_ E]].
  pose proof (split_points_aligned pop) as H. now rewrite <- E in H.
Qed.

Lemma infills_aligned (k : nat) (st st' : EgorState val) :
  infills k st st' -> aligned st -> aligned st'.
Proof.
  induction 1 as [st st' Hp Hs|k st st1 st' Hstep Hrest IH]; intros Ha.
  - unfold aligned in *. now rewrite Hp.
  - apply IH.
    destruct Hstep
      as [cfg [x0 [xf0 [y0 [x_new [x [xf [y [H0 [_ [Hxy [H1 _]]]]]]]]]]]].
    apply get_xy_aligned in Hxy.
    unfold aligned in *. rewrite H0 in Ha. rewrite H1.
    rewrite !List.length_app. lia.
Qed.

Lemma get_xy_tried (pop : population val) (x xf y : matrix val) :
  _get_xy val problem pop = Return (x, xf, y) ->
  (List.length x + List.length xf)%nat = List.length pop.
Proof.
  intros E. apply get_xy_return in E as [_ [Hmask E]].
  pose proof (split_points_partition pop Hmask) as H.
  rewrite <- E in H. tauto.
Qed.

Lemma infills_tried (k : nat) (st st' : EgorState val) :
  sized -> infills k st st' ->
  egor_n_tried val st' = (egor_n_tried val st + k)%nat
  /\ stored val st' = (stored val st + k)%nat.
Proof.
  intros Hsized. induction 1 as [st st' Hp Hs|k st st1 st' Hstep Hrest IH].
  - unfold egor_n_tried, egor_n, egor_n_failed, _x, _x_failed.
    rewrite Hp, Hs. lia.
  - destruct IH as [IH1 IH2]. rewrite IH1, IH2.
    destruct Hstep
      as [cfg [x0 [xf0 [y0 [x_new [x [xf [y [H0 [Hsug [Hxy [H1 H2]]]]]]]]]]]].
    apply get_xy_tried in Hxy.
    destruct Hsized as [Heval [_ [_ Hone]]].
    unfold _evaluate in Hxy. rewrite Heval, (Hone _ _ _ _ Hsug) in Hxy.
    unfold egor_n_tried, egor_n, egor_n_failed, _x, _x_failed.
    rewrite H0, H1, H2, !List.length_app. lia.
Qed.

Lemma run_doe_run (n : Z) (st : EgorState val) :
  _run_doe val problem n_init res engine (Some n) st
  = match _get_xy val problem
            (_evaluate val problem (_sample_doe val res engine n)) with
    | Return p => (Return tt, saved (with_points st p))
    | Throw e => (Throw e, st)
    end.
Proof.
  unfold _run_doe, ebind, elift.
  destruct (_get_xy val problem
              (_evaluate val problem (_sample_doe val res engine n)));
    reflexivity.
Qed.

(** What lines 163-173 do: the points loaded, if any were, and then the DOE,
    if one was due. *)
Lemma prepare_spec (st st2 : EgorState val) (r : outcome unit) :
  prepare st = (r, st2) ->
  exists st1,
    (st1 = st
     \/ exists pop p,
          points val st = None
          /\ load_previous_results val problem results_folder = Some pop
          /\ _get_xy val problem pop = Return p
          /\ st1 = with_points st p)
    /\ ((exists e, r = Throw e /\ st2 = st1)
        \/ (r = Return tt /\ n_init <= Z.of_nat (egor_n_tried val st1)
            /\ st2 = st1)
        \/ (r = Return tt /\ Z.of_nat (egor_n_tried val st1) < n_init
            /\ exists p, doe_points st1 = Return p
                         /\ st2 = saved (with_points st1 p))).
Proof.
  assert (Hdoe : forall st1 r st2,
    (if Z.of_nat (egor_n_tried val st1) <? n_init
     then _run_doe val problem n_init res engine
            (Some (n_init - Z.of_nat (egor_n_tried val st1))) st1
     else (Return tt, st1)) = (r, st2) ->
    (exists e, r = Throw e /\ st2 = st1)
    \/ (r = Return tt /\ n_init <= Z.of_nat (egor_n_tried val st1) /\ st2 = st1)
    \/ (r = Return tt /\ Z.of_nat (egor_n_tried val st1) < n_init
        /\ exists p, doe_points st1 = Return p
                     /\ st2 = saved (with_points st1 p))).
  { intros st1 r0 st0.
    destruct (Z.ltb_spec (Z.of_nat (egor_n_tried val st1)) n_init) as [Hlt|Hge].
    - rewrite run_doe_run. fold (doe_points st1).
      destruct (doe_points st1) as [p|e]; intros E; inversion E; subst.
      + right. right. split; [reflexivity|]. split; [exact Hlt|].
        exists p. split; reflexivity.
      + left. exists e. split; reflexivity.
    - intros E. inversion E; subst. right. left.
      split; [reflexivity|]. split; [lia|reflexivity]. }
  unfold prepare, ebind.
  destruct (points val st) as [p0|] eqn:Hp.
  - intros E. exists st. split; [now left|]. now apply Hdoe.
  - unfold initialize_from_previous.
    destruct (load_previous_results val problem results_folder) as [pop|] eqn:Hl.
    + unfold ebind, elift.
      destruct (_get_xy val problem pop) as [p|e] eqn:Ex.
      * change (set_points val p st) with (Return tt, with_points st p).
        intros E. exists (with_points st p). split; [|now apply Hdoe].
        right. exists pop, p. auto.
      * intros E. injection E as <- <-. exists st. split; [now left|].
        left. exists e. split; reflexivity.
    + unfold eret. intros E. exists st. split; [now left|]. now apply Hdoe.
Qed.

Lemma prepare_frame (st st2 : EgorState val) (r : outcome unit) :
  prepare st = (r, st2) ->
  _egor val st2 = _egor val st /\ _design_space val st2 = _design_space val st.
Proof.
  intros E. apply prepare_spec in E as [st1 [H1 H2]].
  assert (H : _egor val st1 = _egor val st
              /\ _design_space val st1 = _design_space val st).
  { destruct H1 as [->|[pop [p [_ [_ [_ ->]]]]]]; split; reflexivity. }
  destruct H2 as [[e [_ ->]]|[[_ [_ ->]]|[_ [_ [p [_ ->]]]]]]; exact H.
Qed.

Lemma aligned_with_points (st : EgorState val) (pop : population val)
  (p : matrix val * matrix val * matrix val) :
  _get_xy val problem pop = Return p -> aligned (with_points st p).
Proof.
  destruct p as [[x xf] y]. intros E. apply get_xy_aligned in E. exact E.
Qed.

Lemma prepare_aligned (st st2 : EgorState val) (r : outcome unit) :
  prepare st = (r, st2) -> aligned st -> aligned st2.
Proof.
  intros E Ha. apply prepare_spec in E as [st1 [H1 H2]].
  assert (H : aligned st1).
  { destruct H1 as [->|[pop [p [_ [_ [Hxy ->]]]]]]; [exact Ha|].
    exact (aligned_with_points st pop p Hxy). }
  destruct H2 as [[e [_ ->]]|[[_ [_ ->]]|[_ [_ [p [Hd ->]]]]]]; try exact H.
  exact (aligned_with_points st1 _ p Hd).
Qed.

Lemma egor_minimize_unfold (n_infill : Z) (st : EgorState val) :
  egor_minimize val problem seed results_folder n_init res engine n_infill st
  = match prepare st with
    | (Return _, st2) =>
        if Z.of_nat (egor_n_tried val st2) <? n_init + n_infill
        then
          match _run_infills val problem seed res engine
                  (n_infill - (Z.of_nat (egor_n_tried val st2) - n_init)) st2 with
          | (Return r, st3) => (Return r, saved st3)
          | (Throw e, st3) => (Throw e, st3)
          end
        else (Throw UnboundLocalError, saved st2)
    | (Throw e, st2) => (Throw e, st2)
    end.
Proof.
  unfold egor_minimize, prepare, ebind.
  destruct (match points val st with
            | None => initialize_from_previous val problem results_folder None st
            | Some _ => (Return tt, st)
            end) as [[[]|e] st1]; [|reflexivity].
  destruct (if Z.of_nat (egor_n_tried val st1) <? n_init
            then _run_doe val problem n_init res engine
                   (Some (n_init - Z.of_nat (egor_n_tried val st1))) st1
            else (Return tt, st1)) as [[[]|e] st2]; [|reflexivity].
  cbv zeta.
  destruct (Z.of_nat (egor_n_tried val st2) <? n_init + n_infill).
  - destruct (_run_infills val problem seed res engine _ st2)
      as [[r|e] st3]; reflexivity.
  - reflexivity.
Qed.

Lemma infills_frame (k : nat) (st st1 st' : EgorState val) :
  infills k st st1 ->
  points val st' = points val st1 -> stored val st' = stored val st1 ->
  infills k st st'.
Proof.
  induction 1 as [st st1 Hp Hs|k st st0 st1 Hstep Hrest IH]; intros Hp' Hs'.
  - constructor; congruence.
  - econstructor; eauto.
Qed.

Lemma run_infills_spec (n : Z) (st st' : EgorState val) (r : outcome res) :
  _run_infills val problem seed res engine n st = (r, st') ->
  exists j, infills j st st'
            /\ (j <= Z.to_nat n)%nat
            /\ match r with Return _ => j = Z.to_nat n | Throw _ => True end.
Proof.
  unfold _run_infills, ebind. intros E.
  destruct (repeat_step val problem seed res engine (Z.to_nat n) st)
    as [[[]|e] st1] eqn:Er; apply repeat_step_spec in Er.
  - destruct (egor val problem seed st1) as [[cfg|e] st2] eqn:Ee;
      apply egor_frame in Ee as [Hp Hs]; inversion E; subst;
      exists (Z.to_nat n); (split; [|split; auto]);
      eapply infills_frame; eauto.
  - inversion E; subst. destruct Er as [j [Hj Er]]. exists j.
    repeat split; auto. lia.
Qed.

(** X11: [minimize] keeps [_x] and [_y] row for row: whichever points the
    sampler and egobox propose, whichever of them fail, and whether the call
    returns or raises, the two have the same number of rows afterwards if
    they had before. *)
Theorem minimize_keeps_aligned (n_infill : Z) (st st' : EgorState val)
  (r : outcome res) :
  masked ->
  aligned st ->
  egor_minimize val problem seed results_folder n_init res engine n_infill st
  = (r, st') ->
  aligned st'.
Proof.
  intros _ Ha E. rewrite egor_minimize_unfold in E.
  destruct (prepare st) as [r0 st2] eqn:Ep.
  pose proof (prepare_aligned _ _ _ Ep Ha) as Hprep.
  destruct r0 as [[]|e]; [|inversion E; subst; exact Hprep].
  destruct (Z.of_nat (egor_n_tried val st2) <? n_init + n_infill).
  - destruct (_run_infills val problem seed res engine _ st2)
      as [[r0|e] st3] eqn:Er;
      apply run_infills_spec in Er as [j [Hinf _]];
      apply (infills_aligned _ _ _ Hinf) in Hprep;
      inversion E; subst; exact Hprep.
  - inversion E; subst. exact Hprep.
Qed.

(** X12: given oracles that answer in the expected sizes, whenever [minimize]
    returns a result, exactly [n_init + n_infill] points have been tried
    (evaluated or failed). *)
Theorem minimize_tries_budget (n_infill : Z) (st st' : EgorState val) (r : res) :
  sized ->
  egor_minimize val problem seed results_folder n_init res engine n_infill st
  = (Return r, st') ->
  Z.of_nat (egor_n_tried val st') = n_init + n_infill.
Proof.
  intros Hsized E. rewrite egor_minimize_unfold in E.
  destruct (prepare st) as [[[]|e] st2]; [|discriminate].
  destruct (Z.ltb_spec (Z.of_nat (egor_n_tried val st2))
                       (n_init + n_infill)) as [Hlt|Hge]; [|discriminate].
  destruct (_run_infills val problem seed res engine _ st2)
    as [[r0|e] st3] eqn:Er; [|discriminate].
  apply run_infills_spec in Er as [j [Hinf [_ Hj]]].
  apply (infills_tried _ _ _ Hsized) in Hinf as [Ht _].
  inversion E; subst.
  change (egor_n_tried val (saved st3)) with (egor_n_tried val st3).
  rewrite Ht. lia.
Qed.

Lemma minimize_empty_results_raise (n_infill : Z) (st : EgorState val) :
  points val st = None ->
  load_previous_results val problem results_folder = Some [] ->
  egor_minimize val problem seed results_folder n_init res engine n_infill st
  = (Throw IndexError, st).
Proof.
  intros Hp Hl. rewrite egor_minimize_unfold.
  unfold prepare, ebind, initialize_from_previous. rewrite Hp, Hl.
  reflexivity.
Qed.

Lemma prepare_nothing (st : EgorState val)
  (p : matrix val * matrix val * matrix val) :
  points val st = Some p ->
  n_init <= Z.of_nat (egor_n_tried val st) ->
  prepare st = (Return tt, st).
Proof.
  intros Hp Hinit. unfold prepare, ebind. rewrite Hp.
  destruct (Z.ltb_spec (Z.of_nat (egor_n_tried val st)) n_init); [lia|].
  reflexivity.
Qed.

(** X13: when the stored points already cover the DOE and the infill budget,
    [minimize] runs nothing, stores the results once and then raises
    [UnboundLocalError], since [opt_res] was never assigned. *)
Theorem minimize_without_infill_raises (n_infill : Z) (st : EgorState val)
  (p : matrix val * matrix val * matrix val) :
  points val st = Some p ->
  n_init <= Z.of_nat (egor_n_tried val st) ->
  n_init + n_infill <= Z.of_nat (egor_n_tried val st) ->
  egor_minimize val problem seed results_folder n_init res engine n_infill st
  = (Throw UnboundLocalError, saved st).
Proof.
  intros Hp Hinit Hall. rewrite egor_minimize_unfold.
  rewrite (prepare_nothing st p Hp Hinit).
  destruct (Z.ltb_spec (Z.of_nat (egor_n_tried val st)) (n_init + n_infill));
    [lia|reflexivity].
Qed.

Lemma prepare_doe (st : EgorState val)
  (p doe : matrix val * matrix val * matrix val) :
  points val st = Some p ->
  Z.of_nat (egor_n_tried val st) < n_init ->
  doe_points st = Return doe ->
  prepare st = (Return tt, saved (with_points st doe)).
Proof.
  intros Hp Hlt Hd. unfold prepare, ebind. rewrite Hp.
  destruct (Z.ltb_spec (Z.of_nat (egor_n_tried val st)) n_init); [|lia].
  rewrite run_doe_run. fold (doe_points st). now rewrite Hd.
Qed.

Lemma doe_points_return (st : EgorState val) :
  sized ->
  Z.of_nat (egor_n_tried val st) < n_init ->
  exists doe, doe_points st = Return doe.
Proof.
  intros [Heval [Hmask [Hdoe _]]] Hlt.
  eexists. unfold doe_points. apply get_xy_returns; [|apply Hmask].
  intros Hnil. apply (f_equal (@List.length _)) in Hnil.
  unfold _evaluate, _sample_doe in Hnil. rewrite Heval, Hdoe in Hnil.
  simpl in Hnil. lia.
Qed.

(** X14: when fewer than [n_init] points are available, the DOE of lines
    168-173 does not add to them but takes their place.  Given oracles that
    answer in the expected sizes, the DOE of [n_init - n_tried] points is
    evaluated and stored alone; the points after [minimize], returned or
    raised, are those of the DOE followed by those of the infill points that
    were suggested from them, one by one, with none of the earlier points. *)
Theorem minimize_doe_replaces_points (n_infill : Z) (st st' : EgorState val)
  (r : outcome res) (p : matrix val * matrix val * matrix val) :
  sized ->
  points val st = Some p ->
  Z.of_nat (egor_n_tried val st) < n_init ->
  egor_minimize val problem seed results_folder n_init res engine n_infill st
  = (r, st') ->
  exists doe,
    doe_points st = Return doe
    /\ prepare st = (Return tt, saved (with_points st doe))
    /\ exists j st3,
         infills j (saved (with_points st doe)) st3
         /\ points val st' = points val st3.
Proof.
  intros Hsized Hp Hlt E.
  destruct (doe_points_return st Hsized Hlt) as [doe Hd].
  exists doe. split; [exact Hd|].
  split; [exact (prepare_doe st p doe Hp Hlt Hd)|].
  rewrite egor_minimize_unfold, (prepare_doe st p doe Hp Hlt Hd) in E.
  set (st2 := saved (with_points st doe)) in *.
  destruct (Z.of_nat (egor_n_tried val st2) <? n_init + n_infill).
  - destruct (_run_infills val problem seed res engine _ st2)
      as [[r0|e] st3] eqn:Er;
      apply run_infills_spec in Er as [j [Hinf _]];
      injection E as <- <-; exists j, st3; (split; [exact Hinf|reflexivity]).
  - injection E as <- <-. exists O, st2.
    split; [now constructor|reflexivity].
Qed.

Lemma design_space_returns (st : EgorState val) :
  (_design_space val st = None ->
   forall v, In v (des_vars val problem) -> v <> VOther) ->
  exists specs st',
    design_space val problem st = (Return specs, st')
    /\ points val st' = points val st
    /\ stored val st' = stored val st
    /\ _egor val st' = _egor val st.
Proof.
  intros Hsup. unfold design_space.
  destruct (_design_space val st) as [specs|] eqn:Hd.
  - exists specs, st. auto.
  - destruct (append_xspecs_supported _ (Hsup eq_refl) []) as [specs [E _]].
    rewrite E. simpl. eexists _, _. split; [reflexivity|]. simpl. auto.
Qed.

(** X17: a problem with equality constraints is refused only when the first
    infill point is asked for.  With no optimizer built yet, when lines
    163-173 have loaded the previous results and evaluated and stored the DOE
    without raising and infill points are due, [minimize] raises
    [NotImplementedError]: no point is suggested, no optimizer is kept, and
    the results are not stored again. *)
Theorem equality_constraints_stop_infill (n_infill : Z)
  (st st2 : EgorState val) (p : matrix val * matrix val * matrix val) :
  (0 < n_eq_constr val problem)%nat ->
  _egor val st = None ->
  (_design_space val st = None ->
   forall v, In v (des_vars val problem) -> v <> VOther) ->
  prepare st = (Return tt, st2) ->
  points val st2 = Some p ->
  Z.of_nat (egor_n_tried val st2) < n_init + n_infill ->
  exists st',
    egor_minimize val problem seed results_folder n_init res engine n_infill st
    = (Throw NotImplementedError, st')
    /\ points val st' = points val st2
    /\ stored val st' = stored val st2
    /\ _egor val st' = None.
Proof.
  intros Heq Hegor Hsup Hprep Hp Hdue.
  rewrite egor_minimize_unfold, Hprep.
  destruct (Z.ltb_spec (Z.of_nat (egor_n_tried val st2))
              (n_init + n_infill)) as [_|]; [|lia].
  destruct (prepare_frame _ _ _ Hprep) as [He Hd].
  destruct (design_space_returns st2) as [specs [st1 [Eds [H1 [H2 H3]]]]].
  { rewrite Hd. exact Hsup. }
  assert (Hn : exists k,
             Z.to_nat (n_infill - (Z.of_nat (egor_n_tried val st2) - n_init))
             = S k).
  { exists (Nat.pred (Z.to_nat
              (n_infill - (Z.of_nat (egor_n_tried val st2) - n_init)))).
    lia. }
  destruct Hn as [k Hk].
  assert (Hnb : _get_constraints_nb val problem = Throw NotImplementedError).
  { unfold _get_constraints_nb.
    destruct (Nat.ltb_spec 0 (n_eq_constr val problem)); [reflexivity|lia]. }
  assert (Hstep : infill_step val problem seed res engine st2
                  = (Throw NotImplementedError, st1)).
  { unfold infill_step. rewrite Hp. unfold ebind at 1.
    unfold egor. rewrite He, Hegor. unfold ebind at 1. rewrite Eds.
    unfold ebind at 1. rewrite Hnb. reflexivity. }
  exists st1. unfold _run_infills. unfold ebind at 1. rewrite Hk.
  cbn [repeat_step]. unfold ebind at 1. rewrite Hstep.
  split; [reflexivity|]. split; [exact H1|]. split; [exact H2|].
  now rewrite H3, He.
Qed.

End EgorFacts.

(** ** The interface on the test problems *)

Lemma egor_problem_masked : masked Z egor_problem.
Proof. intros pop. apply List.length_map. Qed.

Lemma egor_engine_sized : sized Z egor_problem _ egor_engine.
Proof.
  repeat split; simpl; intros.
  - apply List.length_map.
  - apply List.length_map.
  - now rewrite List.length_map, List.length_seq.
  - inversion H. reflexivity.
Qed.

Lemma egor_population_not_empty : egor_population <> [].
Proof. discriminate. Qed.

Lemma get_xy_partition_witness :
  exists x x_failed y,
    _get_xy Z egor_problem egor_population = Return (x, x_failed, y)
    /\ x = List.map (ind_X Z) (evaluated Z egor_problem egor_population)
    /\ y = List.map (outputs_of Z egor_problem)
             (evaluated Z egor_problem egor_population)
    /\ x_failed = List.map (ind_X Z) (failed Z egor_problem egor_population)
    /\ List.length x = List.length y
    /\ (List.length x + List.length x_failed)%nat
       = List.length egor_population.
Proof.
  apply (proj2 (get_xy_partition Z egor_problem egor_population)).
  - exact egor_population_not_empty.
  - reflexivity.
Defined.

Example get_xy_of_three_points :
  _get_xy Z egor_problem egor_population
  = Return ([[0; 1]; [1; 1]], [[-1; 1]], [[1; -2]; [2; -1]]).
Proof. reflexivity. Qed.

Example get_xy_of_no_point :
  _get_xy Z egor_problem [] = Throw IndexError.
Proof. reflexivity. Qed.

Lemma get_population_get_xy_witness :
  exists x x_failed y,
    _get_xy Z egor_problem egor_population = Return (x, x_failed, y)
    /\ get_population Z egor_problem x y
       = Return (evaluated Z egor_problem egor_population).
Proof.
  apply (get_population_get_xy Z egor_problem egor_population).
  - exact egor_population_not_empty.
  - reflexivity.
  - repeat constructor.
Defined.

Lemma design_space_memo_witness :
  exists specs,
    Forall2 (fun v s => xspec_of v = Return s) [VReal 0 1] specs
    /\ design_space Z egor_problem_other (egor_init Z)
       = (Throw RuntimeError, with_design_space Z (egor_init Z) specs)
    /\ design_space Z egor_problem_other (with_design_space Z (egor_init Z) specs)
       = (Return specs, with_design_space Z (egor_init Z) specs).
Proof.
  destruct (design_space_memo Z egor_problem_other (egor_init Z) eq_refl)
    as [_ H].
  apply (H [VReal 0 1] [VBinary] eq_refl).
  intros v [<-|[]]. discriminate.
Defined.

Example design_space_of_egor_problem :
  fst (design_space Z egor_problem (egor_init Z)) = Return [XFloat 0 1; XInt 0 3].
Proof. reflexivity. Qed.

Lemma minimize_keeps_aligned_witness :
  aligned Z (snd (egor_minimize Z egor_problem None "results" 3 _ egor_engine 2
                    (egor_init Z))).
Proof.
  apply (minimize_keeps_aligned Z egor_problem None "results" 3 _ egor_engine 2
           (egor_init Z) _
           (fst (egor_minimize Z egor_problem None "results" 3 _ egor_engine 2
                   (egor_init Z)))).
  - exact egor_problem_masked.
  - exact I.
  - apply surjective_pairing.
Defined.

Lemma minimize_tries_budget_witness :
  Z.of_nat (egor_n_tried Z (snd (egor_minimize Z egor_problem None "results" 3 _
                                   egor_engine 2 (egor_init Z))))
  = 3 + 2.
Proof.
  eapply (minimize_tries_budget Z egor_problem None "results" 3 _ egor_engine 2
            (egor_init Z)).
  - exact egor_engine_sized.
  - vm_compute. reflexivity.
Defined.

Example minimize_from_scratch :
  let '(r, st) := egor_minimize Z egor_problem None "results" 3 _ egor_engine 2
                    (egor_init Z) in
  r = Return (Some [[0; 1]; [1; 1]; [2; 0]; [3; 0]],
              [[1; -2]; [2; -1]; [2; 0]; [3; 1]])
  /\ egor_x_failed Z st = [[-1; 1]]
  /\ stored Z st = 4%nat.
Proof. vm_compute. auto. Qed.

Lemma minimize_without_infill_raises_witness :
  let st := snd (egor_minimize Z egor_problem None "results" 3 _ egor_engine 2
                   (egor_init Z)) in
  egor_minimize Z egor_problem None "results" 3 _ egor_engine 2 st
  = (Throw UnboundLocalError, saved Z st).
Proof.
  eapply (minimize_without_infill_raises Z egor_problem None "results" 3 _
            egor_engine 2).
  - vm_compute. reflexivity.
  - vm_compute. discriminate.
  - vm_compute. discriminate.
Defined.

Lemma minimize_doe_replaces_points_witness :
  let st := with_points Z (egor_init Z) ([[7; 7]], [], [[14; 5]]) in
  let out := egor_minimize Z egor_problem None "results" 3 _ egor_engine 2 st in
  exists doe,
    doe_points Z egor_problem 3 _ egor_engine st = Return doe
    /\ prepare Z egor_problem "results" 3 _ egor_engine st
       = (Return tt, saved Z (with_points Z st doe))
    /\ exists j st3,
         infills Z egor_problem _ egor_engine j
           (saved Z (with_points Z st doe)) st3
         /\ points Z (snd out) = points Z st3.
Proof.
  apply (minimize_doe_replaces_points Z egor_problem None "results" 3 _
           egor_engine 2
           (with_points Z (egor_init Z) ([[7; 7]], [], [[14; 5]])) _
           (fst (egor_minimize Z egor_problem None "results" 3 _ egor_engine 2
                   (with_points Z (egor_init Z) ([[7; 7]], [], [[14; 5]]))))
           ([[7; 7]], [], [[14; 5]])).
  - exact egor_engine_sized.
  - reflexivity.
  - vm_compute. reflexivity.
  - apply surjective_pairing.
Defined.

Example doe_drops_earlier_point :
  egor_x Z (snd (egor_minimize Z egor_problem None "results" 3 _ egor_engine 2
                   (with_points Z (egor_init Z) ([[7; 7]], [], [[14; 5]]))))
  = [[0; 1]; [1; 0]; [2; 0]; [3; 0]].
Proof. vm_compute. reflexivity. Qed.

Lemma equality_constraints_stop_infill_witness :
  let st2 := snd (prepare Z egor_problem_eq "results" 3 _ egor_engine
                    (egor_init Z)) in
  exists st',
    egor_minimize Z egor_problem_eq None "results" 3 _ egor_engine 2 (egor_init Z)
    = (Throw NotImplementedError, st')
    /\ points Z st' = points Z st2
    /\ stored Z st' = stored Z st2
    /\ _egor Z st' = None.
Proof.
  eapply (equality_constraints_stop_infill Z egor_problem_eq None "results" 3 _
            egor_engine 2 (egor_init Z)).
  - simpl. lia.
  - reflexivity.
  - intros _ v [<-|[<-|[]]]; discriminate.
  - vm_compute. reflexivity.
  - vm_compute. reflexivity.
  - vm_compute. reflexivity.
Defined.

Example prepare_from_scratch :
  prepare Z egor_problem_eq "results" 3 _ egor_engine (egor_init Z)
  = (Return tt,
     {| points := Some ([[0; 1]; [1; 1]], [[-1; 1]], [[1; -2; 1]; [2; -1; 1]]);
        _design_space := None; _egor := None; stored := 1 |}).
Proof. vm_compute. reflexivity. Qed.

Example equality_constraints_after_doe :
  let '(r, st) := egor_minimize Z egor_problem_eq None "results" 3 _ egor_engine 2
                    (egor_init Z) in
  r = Throw NotImplementedError
  /\ egor_x Z st = [[0; 1]; [1; 1]]
  /\ egor_x_failed Z st = [[-1; 1]]
  /\ stored Z st = 1%nat.
Proof. vm_compute. auto. Qed.

(** * Properties of the extreme-barrier evaluator *)

Lemma replace_nan_free (values : list (list fvalue)) :
  nan_free (replace_nan values).
Proof.
  unfold nan_free, replace_nan.
  apply List.Forall_forall. intros r Hr.
  apply List.in_map_iff in Hr as [r0 [<- _]].
  apply List.Forall_forall. intros v Hv.
  apply List.in_map_iff in Hv as [v0 [<- _]].
  destruct v0; reflexivity.
Qed.

Lemma replace_nan_entries (values : list (list fvalue)) :
  Forall2 (Forall2 barrier_entry) values (replace_nan values).
Proof.
  unfold replace_nan.
  induction values as [|r values IH]; simpl; constructor; auto.
  clear IH. induction r as [|v r IH]; simpl; constructor; auto.
  split; destruct v; simpl; intros; try reflexivity; discriminate.
Qed.

(** X15: Whatever pymoo's evaluator writes, the population returned by
    [ExtremeBarrierEvaluator._eval] holds no NaN in [F], [G] or [H]; entry by
    entry, a value that was not NaN is kept and a NaN has become [+inf], so
    the three arrays keep their shapes. *)
Theorem extreme_barrier_removes_nan
  (Evaluator_eval : Outputs -> Outputs) (pop : Outputs) :
  let before := Evaluator_eval pop in
  let after := ExtremeBarrierEvaluator_eval Evaluator_eval pop in
  (nan_free (out_F after) /\ nan_free (out_G after) /\ nan_free (out_H after))
  /\ Forall2 (Forall2 barrier_entry) (out_F before) (out_F after)
  /\ Forall2 (Forall2 barrier_entry) (out_G before) (out_G after)
  /\ Forall2 (Forall2 barrier_entry) (out_H before) (out_H after).
Proof.
  cbv zeta. unfold ExtremeBarrierEvaluator_eval. cbn [out_F out_G out_H].
  split; [split; [|split]; apply replace_nan_free|].
  split; [|split]; apply replace_nan_entries.
Qed.

Example extreme_barrier_on_two_rows :
  out_F (ExtremeBarrierEvaluator_eval
           (fun _ => {| out_F := [[Number 1; NaN]; [NegInf; PosInf]];
                        out_G := [[NaN]; [NaN]];
                        out_H := [[]; []] |})
           {| out_F := []; out_G := []; out_H := [] |})
  = [[Number 1; PosInf]; [NegInf; PosInf]].
Proof. reflexivity. Qed.

(** * Properties of the SMT design space *)

Lemma smt_var_of_size smt_check normalize conditional dv v :
  smt_var_of smt_check normalize conditional dv = Return v ->
  smt_var_size v = des_var_size dv
  /\ smt_check v = None
  /\ (normalize = true -> match dv with
                          | VReal _ _ | VInteger _ _ => starts_at_zero v
                          | _ => True
                          end).
Proof.
  unfold smt_var_of, construct.
  destruct dv as [lb ub|lb ub| |options|];
    [destruct normalize|destruct normalize| |destruct conditional as [[|]|]|];
    intros H;
    repeat match type of H with
    | context [smt_check ?x] =>
        let E := fresh "E" in destruct (smt_check x) eqn:E
    end;
    try discriminate; injection H as <-; simpl;
    (split; [f_equal; lia|split; [assumption|]]);
    intros; try discriminate; simpl; auto.
Qed.

Lemma smt_var_of_raises smt_check normalize conditional dv e :
  smt_var_of smt_check normalize conditional dv = Throw e ->
  (dv = VOther /\ e = ValueError)
  \/ ((exists options, dv = VChoice options)
      /\ conditional = None /\ e = IndexError)
  \/ (exists v, smt_check v = Some e).
Proof.
  unfold smt_var_of, construct.
  destruct dv as [lb ub|lb ub| |options|];
    [destruct normalize|destruct normalize| |destruct conditional as [[|]|]|];
    intros H;
    repeat match type of H with
    | context [smt_check ?x] =>
        let E := fresh "E" in destruct (smt_check x) eqn:E
    end;
    try discriminate; injection H as <-;
    try (right; right; eexists; eassumption).
  - right; left. split; [eexists; reflexivity|split; reflexivity].
  - left. split; reflexivity.
Qed.

Lemma design_variables_from_spec smt_check normalize is_conditional dvs :
  forall i vs,
    design_variables_from smt_check normalize is_conditional i dvs = Return vs ->
    Forall2 (fun dv v =>
               smt_var_size v = des_var_size dv
               /\ smt_check v = None
               /\ (normalize = true -> match dv with
                                       | VReal _ _ | VInteger _ _ =>
                                           starts_at_zero v
                                       | _ => True
                                       end)) dvs vs.
Proof.
  induction dvs as [|dv dvs IH]; simpl; intros i vs H.
  - injection H as <-. constructor.
  - destruct (smt_var_of smt_check normalize
                (List.nth_error is_conditional i) dv) as [v|e] eqn:Ev;
      [|discriminate].
    destruct (design_variables_from smt_check normalize is_conditional (S i) dvs)
      as [vs'|e] eqn:Evs; [|discriminate].
    injection H as <-. constructor.
    + exact (smt_var_of_size _ _ _ _ _ Ev).
    + exact (IH _ _ Evs).
Qed.

Lemma design_variables_from_raises smt_check normalize is_conditional dvs :
  forall i e,
    design_variables_from smt_check normalize is_conditional i dvs = Throw e ->
    exists k dv,
      List.nth_error dvs k = Some dv
      /\ smt_var_of smt_check normalize
           (List.nth_error is_conditional (i + k)) dv = Throw e.
Proof.
  induction dvs as [|dv dvs IH]; simpl; intros i e H; [discriminate|].
  destruct (smt_var_of smt_check normalize
              (List.nth_error is_conditional i) dv) as [v|e'] eqn:Ev.
  - destruct (design_variables_from smt_check normalize is_conditional (S i) dvs)
      as [vs'|e''] eqn:Evs; [discriminate|].
    injection H as <-.
    destruct (IH _ _ Evs) as [k [dv' [Hk Hdv]]].
    exists (S k), dv'. split; [exact Hk|].
    replace (i + S k)%nat with (S i + k)%nat by lia. exact Hdv.
  - injection H as <-. exists 0%nat, dv. split; [reflexivity|].
    now rewrite Nat.add_0_r.
Qed.

(** X16: The variables [_get_design_variables] returns stand one for one
    for the variables of the design space: a continuous variable stays
    continuous and a discrete variable keeps its number of values, whether
    or not the space is normalized and whether or not a choice is
    conditionally active; with normalization every real variable gets the
    bounds (0, 1) and every integer variable starts at 0.  When the call
    raises instead, the exception comes from one variable of the space: its
    kind is unknown ([ValueError]), the activeness array has no entry for it,
    or SMT refused the arguments. *)
Theorem design_variables_keep_sizes
  (smt_check : SmtVar -> option pyexn) (normalize : bool)
  (is_conditional : list bool) (dvs : list DesVar) :
  match _get_design_variables smt_check normalize is_conditional dvs with
  | Return vs =>
      Forall2 (fun dv v =>
                 smt_var_size v = des_var_size dv
                 /\ smt_check v = None
                 /\ (normalize = true -> match dv with
                                         | VReal _ _ | VInteger _ _ =>
                                             starts_at_zero v
                                         | _ => True
                                         end)) dvs vs
  | Throw e =>
      exists k dv,
        List.nth_error dvs k = Some dv
        /\ ((dv = VOther /\ e = ValueError)
            \/ ((exists options, dv = VChoice options)
                /\ List.nth_error is_conditional k = None /\ e = IndexError)
            \/ (exists v, smt_check v = Some e))
  end.
Proof.
  unfold _get_design_variables.
  destruct (design_variables_from smt_check normalize is_conditional 0 dvs)
    as [vs|e] eqn:E.
  - exact (design_variables_from_spec _ _ _ _ _ _ E).
  - destruct (design_variables_from_raises _ _ _ _ _ _ E) as [k [dv [Hk Hdv]]].
    exists k, dv. split; [exact Hk|].
    exact (smt_var_of_raises _ _ _ _ _ Hdv).
Qed.

Example design_variables_normalized :
  _get_design_variables (fun _ => None) true [false; false; false; true]
    [VReal 2 5; VInteger 3 7; VBinary; VChoice ["a"; "b"; "c"]]
  = Return [FloatVariable 0 1; IntegerVariable 0 4; OrdinalVariable [0; 1];
            IntegerVariable 0 2].
Proof. reflexivity. Qed.

Example design_variables_unknown_kind :
  _get_design_variables (fun _ => None) false [false; false]
    [VReal 2 5; VOther]
  = Throw ValueError.
Proof. reflexivity. Qed.
